(** * novelWriter: the project item tree ([novelwriter/core/tree.py])

    A shallow embedding of class [NWTree] and a verification of its
    documented behaviour.  The tree object owns an insertion-ordered
    dictionary of items keyed by handle, a dictionary of tree nodes,
    the Qt-side project model (a heap of node objects below a synthetic
    root), the handle of the trash folder and a change flag. *)

From Stdlib Require Import List Bool Arith NArith Lia String Ascii Permutation.
Import ListNotations.
Open Scope string_scope.
Open Scope list_scope.
Open Scope nat_scope.

Set Implicit Arguments.

(** ** Python dictionaries

    A [dict] keeps its keys in insertion order and assigning to a key
    that is present replaces the value where it stands.  Iteration
    order matters to the tree builder, so a dictionary is an
    association list with that update discipline. *)

Module Dict.

Section WithValue.
Variable V : Type.

Definition t := list (string * V).

Definition empty : t := [].

Fixpoint get (k : string) (d : t) : option V :=
  match d with
  | [] => None
  | (k', v) :: d' => if String.eqb k k' then Some v else get k d'
  end.

Definition mem (k : string) (d : t) : bool :=
  match get k d with Some _ => true | None => false end.

Fixpoint set (k : string) (v : V) (d : t) : t :=
  match d with
  | [] => [(k, v)]
  | (k', v') :: d' =>
      if String.eqb k k' then (k', v) :: d' else (k', v') :: set k v d'
  end.

Definition keys (d : t) : list string := map fst d.

Definition values (d : t) : list V := map snd d.

End WithValue.

End Dict.

(** ** Enumerations and the item record *)

(** Modelled from the spec: the enumerations of [novelwriter/enum.py],
    which is not part of the excerpt.  The item type ranges over
    ROOT, FOLDER, FILE and a trash marker; the class is the domain
    category (the code names NO_CLASS, NOVEL and TRASH, the spec adds
    NOTES); the layout is DOCUMENT or NOTE. *)
Inductive nwItemType := ROOT | FOLDER | FILE | TRASH_MARKER.
Inductive nwItemClass := NO_CLASS | NOVEL | NOTES | TRASH.
Inductive nwItemLayout := DOCUMENT | NOTE.

Definition nwItemType_eqb (a b : nwItemType) : bool :=
  match a, b with
  | ROOT, ROOT | FOLDER, FOLDER | FILE, FILE
  | TRASH_MARKER, TRASH_MARKER => true
  | _, _ => false
  end.

Definition nwItemClass_eqb (a b : nwItemClass) : bool :=
  match a, b with
  | NO_CLASS, NO_CLASS | NOVEL, NOVEL | NOTES, NOTES | TRASH, TRASH => true
  | _, _ => false
  end.

(** Modelled from the spec: class [NWItem] of [novelwriter/core/item.py],
    which is not part of the excerpt.  One tree entry: its identity, its
    place in the hierarchy, its classification and its content metrics. *)
Record NWItem := mkItem {
  itemHandle : string;
  itemParent : option string;
  itemRoot   : option string;
  itemType   : nwItemType;
  itemClass  : nwItemClass;
  itemLayout : nwItemLayout;
  itemName   : string;
  wordCount  : N
}.

(** Modelled from the spec: one plain record of the snapshot exchanged
    by [pack] and [unpack]: handle, parent handle, type, class, layout,
    name and word count, in that order. *)
Record ItemData := mkData {
  d_handle : string;
  d_parent : option string;
  d_type   : nwItemType;
  d_class  : nwItemClass;
  d_layout : nwItemLayout;
  d_name   : string;
  d_words  : N
}.

(** Modelled from the spec: a handle is a string of 13 hex digits. *)
Definition isHexDigit (c : ascii) : bool :=
  let n := nat_of_ascii c in
  ((48 <=? n) && (n <=? 57)) || ((97 <=? n) && (n <=? 102)).

Fixpoint allHex (s : string) : bool :=
  match s with
  | EmptyString => true
  | String c s' => isHexDigit c && allHex s'
  end.

Definition isHandle (s : string) : bool :=
  (String.length s =? 13) && allHex s.

Module Item.

(** Modelled from the spec: [NWItem.unpack], missing from the excerpt.
    A record is accepted when its handle is well formed; the cached
    root of a freshly loaded item is unset. *)
Definition ofData (d : ItemData) : NWItem :=
  mkItem (d_handle d) (d_parent d) None (d_type d) (d_class d)
         (d_layout d) (d_name d) (d_words d).

Definition unpack (d : ItemData) : option NWItem :=
  if isHandle (d_handle d) then Some (ofData d) else None.

(** Modelled from the spec: [NWItem.pack], missing from the excerpt;
    the fields of the record in their stable order. *)
Definition pack (it : NWItem) : ItemData :=
  mkData (itemHandle it) (itemParent it) (itemType it) (itemClass it)
         (itemLayout it) (itemName it) (wordCount it).

(** Modelled from the spec: the setters of [NWItem]. *)
Definition setParent (p : option string) (it : NWItem) : NWItem :=
  mkItem (itemHandle it) p (itemRoot it) (itemType it) (itemClass it)
         (itemLayout it) (itemName it) (wordCount it).

Definition setRoot (r : option string) (it : NWItem) : NWItem :=
  mkItem (itemHandle it) (itemParent it) r (itemType it) (itemClass it)
         (itemLayout it) (itemName it) (wordCount it).

(** Modelled from the spec: [NWItem.setClassDefaults] caches the
    classification of the root ancestor on the item. *)
Definition setClassDefaults (c : nwItemClass) (it : NWItem) : NWItem :=
  mkItem (itemHandle it) (itemParent it) (itemRoot it) (itemType it) c
         (itemLayout it) (itemName it) (wordCount it).

Definition isRootType (it : NWItem) : bool := nwItemType_eqb (itemType it) ROOT.

End Item.

(** ** The node layer

    Modelled from the spec: [ProjectModel] and [ProjectNode] of
    [novelwriter/core/itemmodel.py], missing from the excerpt.  Nodes
    are objects: a node is named by its allocation number in the heap
    of the model, number 0 being the synthetic root.  A node refers to
    its item, which the tree stores under the item's handle, and holds
    the ordered list of its children. *)
Record ProjectNode := mkNode {
  node_item     : option string;
  node_children : list nat
}.

Definition ProjectModel := list ProjectNode.

Module Model.

Definition root : nat := 0.

(** [ProjectModel(tree)]: a fresh model holds the synthetic root only. *)
Definition new : ProjectModel := [mkNode None []].

Definition node (m : ProjectModel) (i : nat) : option ProjectNode :=
  nth_error m i.

Definition children (m : ProjectModel) (i : nat) : list nat :=
  match node m i with Some n => node_children n | None => [] end.

Fixpoint update (i : nat) (f : ProjectNode -> ProjectNode)
    (m : ProjectModel) : ProjectModel :=
  match m, i with
  | [], _ => []
  | n :: m', O => f n :: m'
  | n :: m', S i' => n :: update i' f m'
  end.

(** [ProjectNode(item)]: allocate a node without children. *)
Definition alloc (h : string) (m : ProjectModel) : nat * ProjectModel :=
  (List.length m, m ++ [mkNode (Some h) []]).

(** [parent.addChild(node)]: append to the ordered children. *)
Definition addChild (p c : nat) (m : ProjectModel) : ProjectModel :=
  update p (fun n => mkNode (node_item n) (node_children n ++ [c])) m.

(** [node.allChildren()]: every node below [i], parents before their
    children and siblings in order.  No node is deeper than the heap is
    long, which bounds the descent. *)
Fixpoint descend (fuel : nat) (m : ProjectModel) (i : nat) : list nat :=
  match fuel with
  | O => []
  | S fuel' => flat_map (fun c => c :: descend fuel' m c) (children m i)
  end.

Definition allChildren (m : ProjectModel) (i : nat) : list nat :=
  descend (List.length m) m i.

End Model.

(** ** The tree object *)

Record NWTree := mkTree {
  _model   : ProjectModel;
  _items   : Dict.t NWItem;
  _nodes   : Dict.t nat;
  _trash   : option string;
  _changed : bool
}.

Definition MAX_DEPTH : nat := 1000.

Module Tree.

Definition init : NWTree := mkTree Model.new [] [] None false.

Definition trashRoot (t : NWTree) : option string := _trash t.

Definition clear (t : NWTree) : NWTree := mkTree Model.new [] [] None false.

Definition handles (t : NWTree) : list string := Dict.keys (_items t).

(** [__getitem__]: the handle must be truthy and present. *)
Definition getitem (t : NWTree) (h : option string) : option NWItem :=
  match h with
  | Some k => if String.eqb k "" then None else Dict.get k (_items t)
  | None => None
  end.

Definition contains (t : NWTree) (h : string) : bool := Dict.mem h (_items t).

(** [create]: the body is commented out in this revision; what is left
    returns [None] whatever the arguments. *)
Definition create (t : NWTree) (label : string) (parent : option string)
    (ty : nwItemType) (cl : nwItemClass) : option string * NWTree :=
  (None, t).

(** [append]: the body is commented out as well; the call reports
    success and leaves the tree alone. *)
Definition append (t : NWTree) (it : NWItem) : bool * NWTree :=
  (true, t).

(** [__delitem__]: inert too. *)
Definition delitem (t : NWTree) (h : string) : NWTree := t.

Definition set_items (t : NWTree) (d : Dict.t NWItem) : NWTree :=
  mkTree (_model t) d (_nodes t) (_trash t) (_changed t).

Definition set_trash (t : NWTree) (h : option string) : NWTree :=
  mkTree (_model t) (_items t) (_nodes t) h (_changed t).

(** One turn of the loop of [unpack]. *)
Definition unpack_step (t : NWTree) (d : ItemData) : NWTree :=
  match Item.unpack d with
  | Some it =>
      let t1 := set_items t (Dict.set (itemHandle it) it (_items t)) in
      if nwItemClass_eqb (itemClass it) TRASH
      then set_trash t1 (Some (itemHandle it))
      else t1
  | None => t
  end.

Definition unpack (data : list ItemData) (t : NWTree) : NWTree :=
  fold_left unpack_step data (clear t).

(** [node.item]: the item object of a node; the tree stores it under
    its handle, and every mutation of an item goes through that entry. *)
Definition node_object (t : NWTree) (i : nat) : option NWItem :=
  match Model.node (_model t) i with
  | Some n =>
      match node_item n with
      | Some h => Dict.get h (_items t)
      | None => None
      end
  | None => None
  end.

Definition pack (t : NWTree) : list ItemData :=
  flat_map (fun i => match node_object t i with
                     | Some it => [Item.pack it]
                     | None => []
                     end)
           (Model.allChildren (_model t) Model.root).

End Tree.

(** ** Exceptions *)

Inductive exn := RecursionError | AssertionError.

Inductive result (A : Type) :=
| Ok (a : A)
| Raise (e : exn).
Arguments Ok {A} a.
Arguments Raise {A} e.

Definition bind {A B} (r : result A) (k : A -> result B) : result B :=
  match r with
  | Ok a => k a
  | Raise e => Raise e
  end.

Notation "'let*' x ':=' r 'in' k" := (bind r (fun x => k))
  (at level 10, x pattern, r at level 100, k at level 200).

(** A [for] loop whose body may raise. *)
Fixpoint for_each {A S} (body : S -> A -> result S) (xs : list A) (s : S)
    : result S :=
  match xs with
  | [] => Ok s
  | x :: xs' => let* s' := body s x in for_each body xs' s'
  end.

(** Python truthiness of an optional string: [None] and the empty
    string are both false. *)
Definition truthy (p : option string) : option string :=
  match p with
  | Some s => if String.eqb s "" then None else Some s
  | None => None
  end.

Definition option_string_eqb (a b : option string) : bool :=
  match a, b with
  | Some x, Some y => String.eqb x y
  | None, None => true
  | _, _ => false
  end.

Definition inb (k : string) (l : list string) : bool :=
  existsb (String.eqb k) l.

Module Build.

Import Tree.

Definition set_model_nodes (t : NWTree) (m : ProjectModel) (n : Dict.t nat)
    : NWTree :=
  mkTree m (_items t) n (_trash t) (_changed t).

(** [node = ProjectNode(item); parent.addChild(node);
     self._nodes[handle] = node]. *)
Definition attach (t : NWTree) (parent : nat) (handle : string) : NWTree :=
  let '(node, m) := Model.alloc handle (_model t) in
  set_model_nodes t (Model.addChild parent node m)
                  (Dict.set handle node (_nodes t)).

(** [item.setParent(None)] on the item stored under [handle]: the
    dictionaries [later] and [items] of the builder share their item
    objects with [self._items]. *)
Definition clearParent (t : NWTree) (handle : string) : NWTree :=
  match Dict.get handle (_items t) with
  | Some item =>
      set_items t (Dict.set handle (Item.setParent None item) (_items t))
  | None => t
  end.

(** The body of the loop of [_buildTree].  [items] lists the keys of
    the dictionary the pass iterates over; [remains] those of the
    dictionary it returns.  The items themselves are read from
    [self._items], whose objects both dictionaries share.  A node
    object counts as true, so [self._nodes.get(pHandle)] is false for
    a missing entry only. *)
Definition buildTree_step (items : list string)
    (acc : NWTree * list string) (handle : string) : NWTree * list string :=
  let '(t, remains) := acc in
  match Dict.get handle (_items t) with
  | None => acc
  | Some item =>
      match truthy (itemParent item) with
      | Some pHandle =>
          match Dict.get pHandle (_nodes t) with
          | Some parent => (attach t parent handle, remains)
          | None =>
              if inb pHandle items then (t, remains ++ [handle])
              else (clearParent t handle, remains)
          end
      | None =>
          if Item.isRootType item
          then (attach t Model.root handle, remains)
          else acc
      end
  end.

Definition _buildTree (t : NWTree) (items : list string)
    : NWTree * list string :=
  fold_left (buildTree_step items) items (t, []).

(** The [for ... else] of [buildModel]: [n] passes are left; when none
    is and items remain, their parents are cleared. *)
Fixpoint buildLoop (n : nat) (t : NWTree) (later : list string) : NWTree :=
  match n with
  | O => fold_left clearParent later t
  | S n' =>
      let '(t', later') := _buildTree t later in
      match later' with
      | [] => t'
      | _ :: _ => buildLoop n' t' later'
      end
  end.

Definition buildModel (t : NWTree) : NWTree :=
  buildLoop 999 t (Dict.keys (_items t)).

End Build.

Module Query.

Import Tree.

(** The loop of [updateItemData]: [fuel] turns are left. *)
Fixpoint findRootItem (fuel : nat) (t : NWTree) (iItem : NWItem)
    : result (option NWItem) :=
  match fuel with
  | O => Raise RecursionError
  | S fuel' =>
      match itemParent iItem with
      | None => Ok (Some iItem)
      | Some p =>
          match getitem t (Some p) with
          | None => Ok None
          | Some iItem' => findRootItem fuel' t iItem'
          end
      end
  end.

Definition updateItemData_within (depth : nat) (t : NWTree) (tHandle : string)
    : result (bool * NWTree) :=
  match getitem t (Some tHandle) with
  | None => Ok (false, t)
  | Some tItem =>
      let* r := findRootItem depth t tItem in
      match r with
      | Some iItem =>
          let tItem' :=
            Item.setClassDefaults (itemClass iItem)
              (Item.setRoot (Some (itemHandle iItem)) tItem) in
          Ok (true, set_items t (Dict.set tHandle tItem' (_items t)))
      | None => Ok (false, t)
      end
  end.

Definition updateItemData := updateItemData_within MAX_DEPTH.

Definition isTrash (t : NWTree) (tHandle : string) : bool :=
  match getitem t (Some tHandle) with
  | None => true
  | Some tItem =>
      if nwItemClass_eqb (itemClass tItem) TRASH then true
      else
        match _trash t with
        | Some trash =>
            if String.eqb tHandle trash then true
            else if option_string_eqb (itemParent tItem) (Some trash) then true
            else if option_string_eqb (itemRoot tItem) (Some trash) then true
            else false
        | None => false
        end
  end.

Definition option_class_eqb (a : nwItemClass) (b : option nwItemClass) : bool :=
  match b with
  | Some c => nwItemClass_eqb a c
  | None => false
  end.

Fixpoint firstOfClass (t : NWTree) (itemClass' : option nwItemClass)
    (ns : list nat) : option string :=
  match ns with
  | [] => None
  | n :: ns' =>
      match node_object t n with
      | Some it =>
          if option_class_eqb (itemClass it) itemClass'
          then Some (itemHandle it)
          else firstOfClass t itemClass' ns'
      | None => firstOfClass t itemClass' ns'
      end
  end.

Definition findRoot (t : NWTree) (itemClass' : option nwItemClass)
    : option string :=
  firstOfClass t itemClass' (Model.children (_model t) Model.root).

End Query.

(** ** The consistency checker *)

(** What the storage collaborator reports of a content unit:
    [getDocument(h).getMeta()] after [readDocument(isOrphan=True)]. *)
Record Meta := mkMeta {
  m_name   : string;
  m_parent : option string;
  m_class  : option nwItemClass;
  m_layout : option nwItemLayout
}.

Module Consistency.

Import Tree Query.

(** [set(storage.scanContent())]: the scan without repetitions; the
    list order stands for the iteration order of the set. *)
Definition fileSet (scan : list string) : list string :=
  nodup string_dec scan.

Definition discard (h : string) (files : list string) : list string :=
  filter (fun f => negb (String.eqb f h)) files.

(** First loop: verify every handle that has a node. *)
Definition verify_step (acc : NWTree * list string) (tHandle : string)
    : result (NWTree * list string) :=
  let '(t, files) := acc in
  let* r := updateItemData t tHandle in
  let '(ok, t') := r in
  if ok then Ok (t', discard tHandle files)
  else Ok (delitem t' tHandle, files).

(** The three fallbacks for the parent of a recovered content unit;
    the last calls [create] and asserts that it gave a handle. *)
Definition resolveParent (t : NWTree) (prefix : string)
    (oParent : option string) (oClass : nwItemClass)
    : result (string * NWTree) :=
  let oParent :=
    match oParent with
    | Some p => if Dict.mem p (_nodes t) then Some p else None
    | None => None
    end in
  let oParent :=
    match oParent with
    | None => findRoot t (Some oClass)
    | Some _ => oParent
    end in
  let oParent :=
    match oParent with
    | None => findRoot t (Some NOVEL)
    | Some _ => oParent
    end in
  let '(oParent, t) :=
    match oParent with
    | None => create t prefix None ROOT NOVEL
    | Some _ => (oParent, t)
    end in
  match oParent with
  | Some p => Ok (p, t)
  | None => Raise AssertionError
  end.

Definition orElse {A} (o : option A) (d : A) : A :=
  match o with Some a => a | None => d end.

(** The item built for the content unit [cHandle]. *)
Definition recoveredItem (prefix cHandle : string) (m : Meta)
    (oParent : string) : NWItem :=
  let oName := if String.eqb (m_name m) "" then cHandle else m_name m in
  mkItem cHandle (Some oParent) None FILE (orElse (m_class m) NOVEL)
         (orElse (m_layout m) NOTE)
         (("[" ++ prefix ++ "] ") ++ oName)%string 0%N.

(** Second loop: recover one content unit. *)
Definition recover_step (meta : string -> Meta) (prefix : string)
    (acc : NWTree * nat) (cHandle : string) : result (NWTree * nat) :=
  let '(t, recovered) := acc in
  let m := meta cHandle in
  let* r := resolveParent t prefix (m_parent m) (orElse (m_class m) NOVEL) in
  let '(oParent, t1) := r in
  let newItem := recoveredItem prefix cHandle m oParent in
  let '(ok, t2) := append t1 newItem in
  if ok then
    let* u := updateItemData t2 cHandle in
    Ok (snd u, S recovered)
  else Ok (t2, recovered).

Definition checkConsistency (scan : list string) (meta : string -> Meta)
    (prefix : string) (t : NWTree) : result ((nat * nat) * NWTree) :=
  let* r := for_each verify_step (Dict.keys (_nodes t)) (t, fileSet scan) in
  let '(t1, files) := r in
  let orphans := List.length files in
  if orphans =? 0 then Ok ((0, 0), t1)
  else
    let* r2 := for_each (recover_step meta prefix) files (t1, 0) in
    Ok ((orphans, snd r2), fst r2).

End Consistency.

(** ** Handle generation *)

Module Handle.

Definition hexChar (d : N) : ascii :=
  match d with
  | 0%N => "0" | 1%N => "1" | 2%N => "2" | 3%N => "3"
  | 4%N => "4" | 5%N => "5" | 6%N => "6" | 7%N => "7"
  | 8%N => "8" | 9%N => "9" | 10%N => "a" | 11%N => "b"
  | 12%N => "c" | 13%N => "d" | 14%N => "e" | _ => "f"
  end%char.

(** The last [width] hex digits of [n] before [acc]. *)
Fixpoint hexPad (width : nat) (n : N) (acc : string) : string :=
  match width with
  | O => acc
  | S w => hexPad w (n / 16)%N (String (hexChar (n mod 16)%N) acc)
  end.

(** [f"{n:013x}"] for a value below [16 ^ 13]. *)
Definition format013x (n : N) : string := hexPad 13 n "".

(** [random.getrandbits(bits)] out of one word of entropy. *)
Definition getrandbits (bits : N) (entropy : N) : N :=
  (entropy mod 2 ^ bits)%N.

(** [_makeHandle] against a source of entropy [rng], of which [k] words
    are spent.  The source recurses on a collision; [depth] is the depth
    of recursion the interpreter still allows. *)
Fixpoint _makeHandle (depth : nat) (rng : nat -> N) (k : nat) (t : NWTree)
    : option (string * nat) :=
  match depth with
  | O => None
  | S depth' =>
      let handle := format013x (getrandbits 52 (rng k)) in
      if Dict.mem handle (_items t)
      then _makeHandle depth' rng (S k) t
      else Some (handle, S k)
  end.

End Handle.

(** ** Reading the node layer *)

Module Layer.

(** The handle of the item of node [c]; the synthetic root has none. *)
Definition handleOf (m : ProjectModel) (c : nat) : option string :=
  match Model.node m c with
  | Some n => node_item n
  | None => None
  end.

(** The handles of the items of the children of node [i], in order. *)
Definition childHandles (t : NWTree) (i : nat) : list string :=
  flat_map (fun c => match handleOf (_model t) c with
                     | Some h => [h]
                     | None => []
                     end)
           (Model.children (_model t) i).


(** What the builder asks of an item to hang it below a node whose
    item has handle [ph], or below the synthetic root when [ph] is
    [None]: a truthy parent handle equal to [ph], or no truthy parent
    and the root type. *)
Definition childOf (ph : option string) (it : NWItem) : bool :=
  match ph, truthy (itemParent it) with
  | Some h, Some p => String.eqb p h
  | None, None => Item.isRootType it
  | _, _ => false
  end.

Definition belongsTo (t : NWTree) (ph : option string) (c : string) : bool :=
  match Dict.get c (_items t) with
  | Some it => Dict.mem c (_nodes t) && childOf ph it
  | None => false
  end.



End Layer.

(** ** Invariants of the builder *)

Module Shape.

Import Layer.

(** The node layer agrees with itself and with the item store: the
    dictionary of nodes and the heap name the same nodes, a child
    stands below the node its item asks for, and no node is the child
    of two nodes or twice the child of one. *)
Record wellFormed (t : NWTree) : Prop := {
  wf_root : handleOf (_model t) Model.root = None
            /\ 0 < List.length (_model t);
  wf_node : forall i h,
      handleOf (_model t) i = Some h -> Dict.get h (_nodes t) = Some i;
  wf_dict : forall h i,
      Dict.get h (_nodes t) = Some i -> handleOf (_model t) i = Some h;
  wf_child : forall i c,
      In c (Model.children (_model t) i) ->
      exists hc itc,
        handleOf (_model t) c = Some hc
        /\ Dict.get hc (_items t) = Some itc
        /\ childOf (handleOf (_model t) i) itc = true;
  wf_nodup : forall i, NoDup (Model.children (_model t) i);
  wf_uniq : forall i j c,
      In c (Model.children (_model t) i) ->
      In c (Model.children (_model t) j) -> i = j;
  wf_cover : forall c,
      handleOf (_model t) c <> None ->
      exists i, In c (Model.children (_model t) i);
  wf_item : forall i,
      i < List.length (_model t) -> handleOf (_model t) i = None ->
      i = Model.root;
  wf_keys : NoDup (Dict.keys (_items t));
  wf_nonempty : ~ In "" (Dict.keys (_items t))
}.

(** Every item has a node, or is still [pending], or has no parent. *)
Definition settled (t : NWTree) (pending : list string) : Prop :=
  forall h it,
    Dict.get h (_items t) = Some it ->
    In h (Dict.keys (_nodes t)) \/ In h pending
    \/ truthy (itemParent it) = None.

(** The pending handles are handles of items without a node. *)
Definition unattached (t : NWTree) (pending : list string) : Prop :=
  forall h, In h pending ->
    Dict.get h (_nodes t) = None /\ In h (Dict.keys (_items t)).

(** What holds between two steps of the builder. *)
Definition passInv (t : NWTree) (pending : list string) : Prop :=
  wellFormed t /\ settled t pending /\ unattached t pending
  /\ NoDup pending.

(** A tree as [unpack] leaves it: items under distinct non-empty
    handles and an empty node layer. *)
Definition loaded (t : NWTree) : Prop :=
  _model t = Model.new /\ _nodes t = []
  /\ NoDup (Dict.keys (_items t)) /\ ~ In "" (Dict.keys (_items t)).

(** The children of every node are the items among [seen] that have a
    node and belong below it, in the order of [seen]. *)
Definition ordered (t : NWTree) (seen : list string) : Prop :=
  forall i, i < List.length (_model t) ->
    childHandles t i = filter (belongsTo t (handleOf (_model t) i)) seen.


(** [t'] differs from [t] in the parents of items without a node only. *)
Definition sameLayer (t t' : NWTree) : Prop :=
  _model t' = _model t /\ _nodes t' = _nodes t
  /\ Dict.keys (_items t') = Dict.keys (_items t)
  /\ forall c, Dict.get c (_nodes t) <> None ->
               Dict.get c (_items t') = Dict.get c (_items t).



(** What one turn of the loop of [_buildTree] does to an item. *)
Inductive outcome (items : list string) (t : NWTree) (remains : list string)
    (x : string) (itx : NWItem) : NWTree * list string -> Prop :=
| Attached pid :
    pid < List.length (_model t) ->
    childOf (handleOf (_model t) pid) itx = true ->
    outcome items t remains x itx (Build.attach t pid x, remains)
| Deferred p :
    truthy (itemParent itx) = Some p ->
    Dict.get p (_nodes t) = None ->
    In p items ->
    outcome items t remains x itx (t, remains ++ [x])
| Orphaned p :
    truthy (itemParent itx) = Some p ->
    Dict.get p (_nodes t) = None ->
    ~ In p items ->
    outcome items t remains x itx (Build.clearParent t x, remains)
| Skipped :
    truthy (itemParent itx) = None ->
    Item.isRootType itx = false ->
    outcome items t remains x itx (t, remains).

End Shape.

(** ** Walking up the parents *)

Module Chain.


(** The item as [updateItemData] leaves it when the walk ends at [a]. *)
Definition cached (a tItem : NWItem) : NWItem :=
  Item.setClassDefaults (itemClass a)
    (Item.setRoot (Some (itemHandle a)) tItem).

End Chain.

(** ** Reference statements

    Some documented behaviour is stated a second time, in the words of
    the documentation, to be compared with what the code computes. *)

Module Documented.

(** An item is in the trash when it is the trash root, when its parent
    is the trash root or when its cached root is; any other handle,
    known or not, is not. *)
Definition isTrash (t : NWTree) (tHandle : string) : bool :=
  match Dict.get tHandle (_items t), _trash t with
  | Some tItem, Some trash =>
      String.eqb tHandle trash
      || option_string_eqb (itemParent tItem) (Some trash)
      || option_string_eqb (itemRoot tItem) (Some trash)
  | _, _ => false
  end.

(** A flat list is well formed when every parent handle is none or the
    handle of a record of the list, and at most one record is a ROOT
    of class TRASH. *)
Definition wellFormedList (data : list ItemData) : bool :=
  forallb (fun d => match d_parent d with
                    | Some p => inb p (map d_handle data)
                    | None => true
                    end) data
  && (List.length
        (filter (fun d => nwItemClass_eqb (d_class d) TRASH
                          && nwItemType_eqb (d_type d) ROOT) data) <=? 1).

End Documented.

Module DocumentedHandle.

(** Handle generation retries within a fixed budget: some depth is
    enough for every store and every source of entropy. *)
Definition boundedRetry : Prop :=
  exists budget, forall rng k t, Handle._makeHandle budget rng k t <> None.

End DocumentedHandle.

(** ** What a snapshot holds *)

Module Snapshot.

(** The items of the records that [NWItem.unpack] accepts, in order. *)
Definition accepted (data : list ItemData) : list NWItem :=
  flat_map (fun d => match Item.unpack d with
                     | Some it => [it]
                     | None => []
                     end) data.

Definition hasHandle (h : string) (it : NWItem) : bool :=
  String.eqb (itemHandle it) h.

Definition isTrashClass (it : NWItem) : bool :=
  nwItemClass_eqb (itemClass it) TRASH.

(** The last accepted record with handle [h]. *)
Definition lastItem (h : string) (data : list ItemData) : option NWItem :=
  find (hasHandle h) (rev (accepted data)).

(** The handle of the last accepted record of class TRASH. *)
Definition lastTrash (data : list ItemData) : option string :=
  option_map itemHandle (find isTrashClass (rev (accepted data))).

(** The handles in order of first appearance. *)
Definition firstSeen (hs : list string) : list string :=
  rev (nodup string_dec (rev hs)).

(** The records that the builder hangs below the node of handle [ph],
    or below the synthetic root when [ph] is [None]. *)
Definition kids (ph : option string) (data : list ItemData)
    : list ItemData :=
  filter (fun d => Layer.childOf ph (Item.ofData d)) data.

(** The records below [ph], each followed by those below it. *)
Fixpoint walk (fuel : nat) (data : list ItemData) (ph : option string)
    : list ItemData :=
  match fuel with
  | O => []
  | S fuel' =>
      flat_map (fun d => d :: walk fuel' data (Some (d_handle d)))
               (kids ph data)
  end.

(** The records in the order of a walk through the hierarchy that
    their parent handles describe. *)
Definition traversal (data : list ItemData) : list ItemData :=
  walk (S (List.length data)) data None.

Fixpoint distinct (l : list string) : bool :=
  match l with
  | [] => true
  | x :: l' => negb (inb x l') && distinct l'
  end.

(** Every record without a truthy parent is a ROOT, and the parent of
    every other record stands before it. *)
Fixpoint attachableFrom (seen : list string) (data : list ItemData) : bool :=
  match data with
  | [] => true
  | d :: rest =>
      match truthy (d_parent d) with
      | Some p => inb p seen
      | None => nwItemType_eqb (d_type d) ROOT
      end
      && attachableFrom (seen ++ [d_handle d]) rest
  end.

(** Well-formed handles, all distinct, and every record attachable
    when its turn comes. *)
Definition wellListed (data : list ItemData) : bool :=
  forallb (fun d => isHandle (d_handle d)) data
  && distinct (map d_handle data)
  && attachableFrom [] data.




End Snapshot.

(** ** Records listed in document order

    A list in document order is the listing of a forest, every record
    followed by the records below it. *)

Module Forest.

Inductive rtree :=
| RNode (d : ItemData) (below : rforest)
with rforest :=
| FNil
| FCons (t : rtree) (f : rforest).

Scheme rtree_mut := Induction for rtree Sort Prop
  with rforest_mut := Induction for rforest Sort Prop.
Combined Scheme rtree_rforest_ind from rtree_mut, rforest_mut.

Definition rootOf (t : rtree) : ItemData :=
  match t with RNode d _ => d end.

Fixpoint rootsF (f : rforest) : list ItemData :=
  match f with
  | FNil => []
  | FCons t f' => rootOf t :: rootsF f'
  end.

Fixpoint flatT (t : rtree) : list ItemData :=
  match t with
  | RNode d below => d :: flatF below
  end
with flatF (f : rforest) : list ItemData :=
  match f with
  | FNil => []
  | FCons t f' => flatT t ++ flatF f'
  end.

(** The roots of the forest ask for the parent [ph] (for none, and are
    of the root type, when [ph] is [None]), and so on below them. *)
Fixpoint underT (ph : option string) (t : rtree) : bool :=
  match t with
  | RNode d below =>
      Layer.childOf ph (Item.ofData d) && underF (Some (d_handle d)) below
  end
with underF (ph : option string) (f : rforest) : bool :=
  match f with
  | FNil => true
  | FCons t f' => underT ph t && underF ph f'
  end.

Fixpoint heightT (t : rtree) : nat :=
  match t with
  | RNode _ below => S (heightF below)
  end
with heightF (f : rforest) : nat :=
  match f with
  | FNil => 0
  | FCons t f' => Nat.max (heightT t) (heightF f')
  end.

(** The records that name a node of the forest as parent are, for
    every node, the roots of what the forest has below it. *)
Fixpoint agreesT (data : list ItemData) (t : rtree) : Prop :=
  match t with
  | RNode d below =>
      Snapshot.kids (Some (d_handle d)) data = rootsF below
      /\ agreesF data below
  end
with agreesF (data : list ItemData) (f : rforest) : Prop :=
  match f with
  | FNil => True
  | FCons t f' => agreesT data t /\ agreesF data f'
  end.

End Forest.

(** ** Sample data *)

Module Sample.

Definition h0 : string := "0000000000000".
Definition h1 : string := "0000000000001".
Definition h2 : string := "0000000000002".
Definition h3 : string := "0000000000003".
Definition h4 : string := "0000000000004".

Definition novelRoot : ItemData := mkData h1 None ROOT NOVEL DOCUMENT "Novel" 0.
Definition trashRoot : ItemData := mkData h2 None ROOT TRASH DOCUMENT "Trash" 0.
Definition chapter : ItemData :=
  mkData h3 (Some h1) FILE NOVEL DOCUMENT "Chapter" 100.

Definition novelRoot' : ItemData := mkData h1 None ROOT NOVEL DOCUMENT "Other" 0.

Definition folder : ItemData :=
  mkData h3 (Some h1) FOLDER NOVEL DOCUMENT "Part" 0.
Definition sceneA : ItemData :=
  mkData h4 (Some h3) FILE NOVEL DOCUMENT "Scene A" 120.
Definition sceneB : ItemData :=
  mkData h0 (Some h3) FILE NOVEL DOCUMENT "Scene B" 80.

(** A list in document order, and the same records with a scene and
    the folder ahead of their parents. *)
Definition inOrder : list ItemData := [novelRoot; folder; sceneA; sceneB].


(** A root with a folder and a scene, and a scene whose parent is
    unknown. *)
Definition lostScene : ItemData :=
  mkData h2 (Some "00000000000ff") FILE NOVEL DOCUMENT "Lost" 10.
Definition shelf : NWTree :=
  Tree.unpack [novelRoot; folder; sceneA; lostScene] Tree.init.

(** What the storage reports of a unit that no item tracks. *)
Definition strayMeta (h : string) : Meta :=
  mkMeta "Stray" (Some "00000000000ff") (Some NOTES) (Some NOTE).

(** The forest that [inOrder] lists. *)
Definition library : Forest.rforest :=
  Forest.FCons
    (Forest.RNode novelRoot
       (Forest.FCons
          (Forest.RNode folder
             (Forest.FCons (Forest.RNode sceneA Forest.FNil)
                (Forest.FCons (Forest.RNode sceneB Forest.FNil)
                   Forest.FNil)))
          Forest.FNil))
    Forest.FNil.

(** A tree that holds the handle made of zeros. *)
Definition zeroTree : NWTree :=
  Tree.unpack [mkData h0 None ROOT NOVEL DOCUMENT "Novel" 0] Tree.init.

End Sample.

(** ** The rest of the query surface *)

Module Path.

Import Tree.

(** What [getItemPath] records of an item reached under [handle]. *)
Definition entry (asName : bool) (handle : string) (it : NWItem) : string :=
  if asName then itemName it else handle.

(** The loop of [getItemPath]: [fuel] turns are left, [tItem] is the
    item the walk stands on and [tTree] the list built so far. *)
Fixpoint climb (fuel : nat) (t : NWTree) (asName : bool) (tItem : NWItem)
    (tTree : list string) : result (list string) :=
  match fuel with
  | O => Raise RecursionError
  | S fuel' =>
      match itemParent tItem with
      | None => Ok tTree
      | Some tHandle =>
          match getitem t (Some tHandle) with
          | None => Ok tTree
          | Some tItem' =>
              climb fuel' t asName tItem'
                    (tTree ++ [entry asName tHandle tItem'])
          end
      end
  end.

Definition getItemPath_within (depth : nat) (t : NWTree) (tHandle : string)
    (asName : bool) : result (list string) :=
  match getitem t (Some tHandle) with
  | Some tItem => climb depth t asName tItem [entry asName tHandle tItem]
  | None => Ok []
  end.

Definition getItemPath := getItemPath_within MAX_DEPTH.

(** The handles above an item: each is the parent of the one before,
    all are known, and the last item has no parent or an unknown one. *)
Fixpoint chain (t : NWTree) (it : NWItem) (above : list string) : Prop :=
  match above with
  | [] =>
      itemParent it = None
      \/ exists p, itemParent it = Some p /\ getitem t (Some p) = None
  | p :: above' =>
      itemParent it = Some p
      /\ exists it', getitem t (Some p) = Some it' /\ chain t it' above'
  end.

(** The item at the upper end of a chain. *)
Fixpoint top (t : NWTree) (it : NWItem) (above : list string) : NWItem :=
  match above with
  | [] => it
  | p :: above' =>
      match getitem t (Some p) with
      | Some it' => top t it' above'
      | None => it
      end
  end.

(** The name of the item under a handle. *)
Definition nameAt (t : NWTree) (h : string) : string :=
  match getitem t (Some h) with
  | Some it => itemName it
  | None => ""
  end.

Definition mapResult {A B} (f : A -> B) (r : result A) : result B :=
  match r with
  | Ok a => Ok (f a)
  | Raise e => Raise e
  end.

End Path.

Module Counts.

Import Tree.

(** [sumWords]: one pass over the items, by layout. *)
Definition addWords (acc : N * N) (item : NWItem) : N * N :=
  let '(novelWords, noteWords) := acc in
  match itemLayout item with
  | NOTE => (novelWords, (noteWords + wordCount item)%N)
  | DOCUMENT => ((novelWords + wordCount item)%N, noteWords)
  end.

Definition sumWords (t : NWTree) : N * N :=
  fold_left addWords (Dict.values (_items t)) (0%N, 0%N).

(** [checkType]: the item exists and has the given type. *)
Definition checkType (t : NWTree) (tHandle : string) (ty : nwItemType)
    : bool :=
  match getitem t (Some tHandle) with
  | Some tItem => nwItemType_eqb (itemType tItem) ty
  | None => false
  end.

(** [__len__] and [__bool__]. *)
Definition len (t : NWTree) : nat := List.length (_items t).

Definition nonEmpty (t : NWTree) : bool :=
  match _items t with [] => false | _ :: _ => true end.

(** [setOrder]: inert in this revision. *)
Definition setOrder (t : NWTree) (newOrder : list string) : NWTree := t.

(** The words of the items of one layout. *)
Definition wordsOf (layout : nwItemLayout) (items : list NWItem) : N :=
  fold_right
    (fun it s => match itemLayout it, layout with
                 | DOCUMENT, DOCUMENT | NOTE, NOTE => (wordCount it + s)%N
                 | _, _ => s
                 end)
    0%N items.

End Counts.

Module Roots.

Import Tree.

(** Adding to a Python set. *)
Definition addClass (s : list nwItemClass) (c : nwItemClass)
    : list nwItemClass :=
  if existsb (nwItemClass_eqb c) s then s else s ++ [c].

(** [rootClasses]: the classes of the nodes below the synthetic root. *)
Definition rootClasses (t : NWTree) : list nwItemClass :=
  fold_left
    (fun s n => match node_object t n with
                | Some it => addClass s (itemClass it)
                | None => s
                end)
    (Model.children (_model t) Model.root) [].

(** [iterRoots]: the root items of a class, or of every class, in order. *)
Definition iterRoots (t : NWTree) (itemClass' : option nwItemClass)
    : list (string * NWItem) :=
  flat_map
    (fun n => match node_object t n with
              | Some it =>
                  if Item.isRootType it
                  then match itemClass' with
                       | None => [(itemHandle it, it)]
                       | Some c =>
                           if nwItemClass_eqb (itemClass it) c
                           then [(itemHandle it, it)]
                           else []
                       end
                  else []
              | None => []
              end)
    (Model.children (_model t) Model.root).

(** [__iter__]: the items of the nodes in the order of the model. *)
Definition iter (t : NWTree) : list NWItem :=
  flat_map (fun n => match node_object t n with
                     | Some it => [it]
                     | None => []
                     end)
           (Model.allChildren (_model t) Model.root).

(** An item that the builder hangs below the synthetic root. *)
Definition topLevel (t : NWTree) (h : string) : bool :=
  match Dict.get h (_items t) with
  | Some it => Layer.childOf None it
  | None => false
  end.

(** The items of the nodes below the synthetic root, in order. *)
Definition rootObjects (t : NWTree) : list NWItem :=
  flat_map (fun n => match node_object t n with
                     | Some it => [it]
                     | None => []
                     end)
           (Model.children (_model t) Model.root).

(** The items that the builder hangs below the synthetic root, in the
    order of the store. *)
Definition topItems (t : NWTree) : list NWItem :=
  flat_map (fun h => match Dict.get h (_items t) with
                     | Some it => [it]
                     | None => []
                     end)
           (filter (topLevel t) (handles t)).

Definition hasClass (c : nwItemClass) (it : NWItem) : bool :=
  nwItemClass_eqb (itemClass it) c.

Definition yielded (it : NWItem) : string * NWItem := (itemHandle it, it).

End Roots.

Module Copy.

Import Tree.



(** The value of a hex digit; the inverse of [Handle.hexChar]. *)
Definition hexVal (c : ascii) : N :=
  let n := N_of_ascii c in
  if (n <? 58)%N then (n - 48)%N else (n - 87)%N.

(** The number that a string of hex digits denotes after [acc]:
    [int(s, 16)]. *)
Fixpoint parseHex (s : string) (acc : N) : N :=
  match s with
  | EmptyString => acc
  | String c s' => parseHex s' (acc * 16 + hexVal c)%N
  end.


End Copy.

(** ** What the cached root and class leave alone *)

Module Frame.

(** Two items that differ in what [updateItemData] caches at most: the
    root and the classification. *)
Definition sameButCaches (it it' : NWItem) : Prop :=
  itemHandle it' = itemHandle it
  /\ itemParent it' = itemParent it
  /\ itemType it' = itemType it
  /\ itemName it' = itemName it
  /\ wordCount it' = wordCount it.

Definition itemsAlike (d d' : Dict.t NWItem) : Prop :=
  Forall2 (fun e e' => fst e' = fst e /\ sameButCaches (snd e) (snd e')) d d'.

(** Two trees with the same node layer, trash handle and flag, and the
    same items under the same handles in the same order, but for
    what is cached on them. *)
Definition cachesOnly (t t' : NWTree) : Prop :=
  _model t' = _model t /\ _nodes t' = _nodes t
  /\ _trash t' = _trash t /\ _changed t' = _changed t
  /\ itemsAlike (_items t) (_items t').

Definition alike (a b : option NWItem) : Prop :=
  match a, b with
  | Some x, Some y => sameButCaches x y
  | None, None => True
  | _, _ => False
  end.

(** Two walks to the root that end the same way. *)
Definition sameWalk (r r' : result (option NWItem)) : Prop :=
  match r, r' with
  | Ok a, Ok b => alike a b
  | Raise e, Raise e' => e = e'
  | _, _ => False
  end.

(** Two calls of [updateItemData] that return the same flag or raise
    the same exception. *)
Definition sameOutcome (r r' : result (bool * NWTree)) : Prop :=
  match r, r' with
  | Ok (b, _), Ok (b', _) => b = b'
  | Raise e, Raise e' => e = e'
  | _, _ => False
  end.

(** [updateItemData] succeeds on the handle. *)
Definition verifies (t : NWTree) (h : string) : bool :=
  match Query.updateItemData t h with
  | Ok (true, _) => true
  | _ => false
  end.

(** The handles with a node on which [updateItemData] succeeds. *)
Definition verified (t : NWTree) : list string :=
  filter (verifies t) (Dict.keys (_nodes t)).

(** The scanned content units that [checkConsistency] counts as
    orphans: those that are not verified, each once, in the order of
    the scan set. *)
Definition orphans (scan : list string) (t : NWTree) : list string :=
  filter (fun f => negb (inb f (verified t))) (Consistency.fileSet scan).

(** Two items that differ in the parent at most, the second having
    none if they do. *)
Definition sameOrCleared (it it' : NWItem) : Prop :=
  it' = it \/ it' = Item.setParent None it.

Definition parentsCleared (d d' : Dict.t NWItem) : Prop :=
  Forall2 (fun e e' => fst e' = fst e /\ sameOrCleared (snd e) (snd e')) d d'.

(** What is known of an item between two steps of a build that began
    with the items [d0]: it is as it was, or it has no node and is no
    longer pending. *)
Definition untouched (d0 : Dict.t NWItem) (t : NWTree)
    (pending : list string) : Prop :=
  forall h,
    Dict.get h (_items t) = Dict.get h d0
    \/ (Dict.get h (_nodes t) = None /\ ~ In h pending).

(** The item under the handle names a parent. *)
Definition namesParent (t : NWTree) (h : string) : Prop :=
  exists it p,
    Dict.get h (_items t) = Some it /\ truthy (itemParent it) = Some p.

(** The second model holds every node of the first, with its item and
    with its children followed by more. *)
Definition grows (m m' : ProjectModel) : Prop :=
  forall i n,
    Model.node m i = Some n ->
    exists more,
      Model.node m' i = Some (mkNode (node_item n) (node_children n ++ more)).


End Frame.

(** ** More sample data *)

Module Scenario.

Import Sample.

Definition draft : ItemData := mkData h3 (Some h1) FILE NOVEL DOCUMENT "Draft" 100.
Definition sequel : ItemData := mkData h4 (Some h1) FILE NOVEL DOCUMENT "Sequel" 50.
Definition jotting : ItemData := mkData h0 (Some h1) FILE NOVEL NOTE "Jotting" 30.

Definition counted : list ItemData := [novelRoot; draft; sequel; jotting].

(** The sample list loaded and built, and what a check of it returns
    when the scan finds its root, its folder and one unit more. *)
Definition built : NWTree := Build.buildModel (Tree.unpack inOrder Tree.init).

Definition scanned : list string := [h1; h3; "00000000000aa"; h1].

Definition checked : NWTree :=
  match Consistency.checkConsistency scanned strayMeta "Recovered" built with
  | Ok (_, t) => t
  | Raise _ => built
  end.

(** A root and [n] folders, each the parent of the next. *)
Definition nested (n : nat) : list ItemData :=
  mkData (Handle.format013x 0) None ROOT NOVEL DOCUMENT "Novel" 0
  :: map (fun i =>
            mkData (Handle.format013x (N.of_nat (S i)))
                   (Some (Handle.format013x (N.of_nat i)))
                   FOLDER NOVEL DOCUMENT "Part" 0)
         (seq 0 n).

Definition deep : NWTree :=
  Build.buildModel (Tree.unpack (nested MAX_DEPTH) Tree.init).


(** A trash root, a folder in it and a scene in the folder. *)
Definition binned : ItemData :=
  mkData h3 (Some h2) FOLDER NOVEL DOCUMENT "Old" 0.

Definition bin : NWTree := Tree.unpack [trashRoot; binned; sceneA] Tree.init.

Definition binVerified : NWTree :=
  match Query.updateItemData bin h4 with
  | Ok (_, t) => t
  | Raise _ => bin
  end.


End Scenario.

(** * Properties *)

Unset Implicit Arguments.

Lemma nwItemClass_eqb_eq a b : nwItemClass_eqb a b = true <-> a = b.
Proof. destruct a, b; simpl; split; congruence. Qed.

Lemma nwItemType_eqb_eq a b : nwItemType_eqb a b = true <-> a = b.
Proof. destruct a, b; simpl; split; congruence. Qed.

(** ** Dictionaries *)

Section DictFacts.
Variable V : Type.
Implicit Types (d : Dict.t V) (k : string) (v : V).

Lemma get_set_same k v d : Dict.get k (Dict.set k v d) = Some v.
Proof.
  induction d as [|[k' v'] d IH]; simpl.
  - now rewrite String.eqb_refl.
  - destruct (String.eqb k k') eqn:E; simpl; rewrite E; auto.
Qed.

Lemma get_set_other k k' v d :
  k <> k' -> Dict.get k (Dict.set k' v d) = Dict.get k d.
Proof.
  intros N. induction d as [|[k0 v0] d IH]; simpl.
  - apply String.eqb_neq in N. now rewrite N.
  - destruct (String.eqb k' k0) eqn:E; simpl.
    + apply String.eqb_eq in E. subst k0.
      apply String.eqb_neq in N. now rewrite N.
    + now rewrite IH.
Qed.

Lemma get_In_keys k d : Dict.get k d <> None <-> In k (Dict.keys d).
Proof.
  induction d as [|[k' v'] d IH]; simpl.
  - tauto.
  - destruct (String.eqb k k') eqn:E.
    + apply String.eqb_eq in E. subst. split; auto. congruence.
    + apply String.eqb_neq in E. rewrite IH. split; auto.
      intros [H|H]; congruence.
Qed.

Lemma get_None_keys k d : Dict.get k d = None <-> ~ In k (Dict.keys d).
Proof.
  rewrite <- get_In_keys. destruct (Dict.get k d); intuition congruence.
Qed.

Lemma mem_true_keys k d : Dict.mem k d = true <-> In k (Dict.keys d).
Proof.
  rewrite <- get_In_keys. unfold Dict.mem.
  destruct (Dict.get k d); split; congruence.
Qed.

Lemma set_fresh k v d :
  ~ In k (Dict.keys d) -> Dict.set k v d = d ++ [(k, v)].
Proof.
  induction d as [|[k' v'] d IH]; simpl; intros H; auto.
  destruct (String.eqb k k') eqn:E.
  - apply String.eqb_eq in E. subst. tauto.
  - rewrite IH; auto.
Qed.

Lemma keys_set_present k v d :
  In k (Dict.keys d) -> Dict.keys (Dict.set k v d) = Dict.keys d.
Proof.
  induction d as [|[k' v'] d IH]; simpl; intros H; [tauto|].
  destruct (String.eqb k k') eqn:E; simpl; auto.
  apply String.eqb_neq in E. destruct H as [H|H]; [congruence|].
  now rewrite IH.
Qed.

Lemma keys_set_fresh k v d :
  ~ In k (Dict.keys d) -> Dict.keys (Dict.set k v d) = Dict.keys d ++ [k].
Proof.
  intros H. rewrite set_fresh by assumption.
  unfold Dict.keys. now rewrite map_app.
Qed.

Lemma In_keys_set k k' v d :
  In k (Dict.keys (Dict.set k' v d)) <-> k = k' \/ In k (Dict.keys d).
Proof.
  rewrite <- !get_In_keys.
  destruct (string_dec k k') as [->|N].
  - rewrite get_set_same. split; auto. congruence.
  - rewrite get_set_other by assumption. split; auto.
    intros [H|H]; congruence.
Qed.

Lemma NoDup_keys_set k v d :
  NoDup (Dict.keys d) -> NoDup (Dict.keys (Dict.set k v d)).
Proof.
  intros H. destruct (in_dec string_dec k (Dict.keys d)) as [I|I].
  - now rewrite keys_set_present.
  - rewrite keys_set_fresh by assumption.
    apply NoDup_app; auto.
    + constructor; [simpl; tauto | constructor].
    + intros x Hx [<-|[]]. contradiction.
Qed.

End DictFacts.

(** ** Item creation and admission *)

(** C3: [create] is documented to return the handle of the new item,
    and never [None] for a root; in this revision it returns [None] for
    every call and adds nothing, here for a NOVEL root on an empty tree. *)
Theorem create_root_returns_none :
  Tree.create Tree.init "Novel" None ROOT NOVEL = (None, Tree.init)
  /\ forall t label parent ty cl,
       Tree.create t label parent ty cl = (None, t).
Proof. split; reflexivity. Qed.

(** C4: [append] is documented to add the item to the tree and to turn
    down malformed and duplicate handles; in this revision it reports
    success for every item and stores none: a duplicate of a stored
    item is accepted, and so is an item with an empty handle. *)
Theorem append_accepts_everything :
  (let t := Tree.unpack [Sample.novelRoot] Tree.init in
   exists it, Dict.get Sample.h1 (_items t) = Some it
              /\ Tree.append t it = (true, t))
  /\ (forall it, isHandle (itemHandle it) = false ->
                 Tree.append Tree.init it = (true, Tree.init))
  /\ forall t it, Tree.append t it = (true, t).
Proof.
  split; [|split].
  - eexists. split; reflexivity.
  - reflexivity.
  - reflexivity.
Qed.

(** ** Trash membership *)

Lemma option_string_eqb_eq a b : option_string_eqb a b = true <-> a = b.
Proof.
  destruct a, b; simpl; try (split; congruence).
  rewrite String.eqb_eq. split; congruence.
Qed.

(** C8, as documented, fails: a handle that is not in the tree is
    reported as trash. *)
Lemma isTrash_unknown_handle :
  Query.isTrash Tree.init Sample.h0 = true
  /\ Documented.isTrash Tree.init Sample.h0 = false.
Proof. split; reflexivity. Qed.

(** C8, amended: [isTrash] holds exactly when the handle is not a known
    one, or the item has class TRASH, or a trash root is set and the
    handle, the parent of the item or its cached root is that root. *)
Theorem isTrash_iff (t : NWTree) (tHandle : string) :
  Query.isTrash t tHandle = true <->
  Tree.getitem t (Some tHandle) = None
  \/ exists tItem,
       Tree.getitem t (Some tHandle) = Some tItem
       /\ (itemClass tItem = TRASH
           \/ exists trash,
                _trash t = Some trash
                /\ (tHandle = trash
                    \/ itemParent tItem = Some trash
                    \/ itemRoot tItem = Some trash)).
Proof.
  unfold Query.isTrash.
  destruct (Tree.getitem t (Some tHandle)) as [tItem|] eqn:G.
  2: { split; auto. }
  destruct (nwItemClass_eqb (itemClass tItem) TRASH) eqn:C.
  { apply nwItemClass_eqb_eq in C. split; auto.
    intros _. right. exists tItem. auto. }
  assert (NC : itemClass tItem <> TRASH).
  { intros E. apply nwItemClass_eqb_eq in E. congruence. }
  destruct (_trash t) as [trash|].
  - destruct (String.eqb tHandle trash) eqn:E1.
    { apply String.eqb_eq in E1. split; auto. intros _. right.
      exists tItem. split; auto. right. exists trash. auto. }
    destruct (option_string_eqb (itemParent tItem) (Some trash)) eqn:E2.
    { apply option_string_eqb_eq in E2. split; auto. intros _. right.
      exists tItem. split; auto. right. exists trash. auto. }
    destruct (option_string_eqb (itemRoot tItem) (Some trash)) eqn:E3.
    { apply option_string_eqb_eq in E3. split; auto. intros _. right.
      exists tItem. split; auto. right. exists trash. auto. }
    split; [discriminate|].
    intros [H|(it & Hit & [H|(tr & Htr & H)])]; try congruence.
    injection Hit as <-. injection Htr as <-.
    apply String.eqb_neq in E1.
    destruct H as [H|[H|H]]; [congruence| |].
    + apply option_string_eqb_eq in H. congruence.
    + apply option_string_eqb_eq in H. congruence.
  - split; [discriminate|].
    intros [H|(it & Hit & [H|(tr & Htr & H)])]; congruence.
Qed.

(** ** Handle generation *)

Lemma hexChar_isHexDigit d : isHexDigit (Handle.hexChar d) = true.
Proof.
  destruct d as [|p]; [reflexivity|].
  do 4 (try (destruct p as [p|p|]; try reflexivity)).
Qed.

Lemma hexPad_shape w : forall n acc,
  allHex acc = true ->
  allHex (Handle.hexPad w n acc) = true
  /\ String.length (Handle.hexPad w n acc) = w + String.length acc.
Proof.
  induction w as [|w IH]; intros n acc H; simpl.
  - auto.
  - destruct (IH (n / 16)%N (String (Handle.hexChar (n mod 16)%N) acc))
      as [A L].
    + simpl. now rewrite hexChar_isHexDigit.
    + split; [assumption|]. rewrite L. simpl. lia.
Qed.

Lemma format013x_isHandle n : isHandle (Handle.format013x n) = true.
Proof.
  unfold isHandle, Handle.format013x.
  destruct (hexPad_shape 13 n "" eq_refl) as [A L].
  rewrite A, L. reflexivity.
Qed.

Lemma makeHandle_zero_collides depth : forall k,
  Handle._makeHandle depth (fun _ => 0%N) k Sample.zeroTree = None.
Proof.
  induction depth as [|depth IH]; intros k; [reflexivity|].
  simpl. apply IH.
Qed.

(** C9, as documented, fails: no retry budget makes the generator
    return on a tree holding the handle of zeros when every draw is 0. *)
Lemma makeHandle_unbounded :
  (forall depth,
     Handle._makeHandle depth (fun _ => 0%N) 0 Sample.zeroTree = None)
  /\ ~ DocumentedHandle.boundedRetry.
Proof.
  split.
  - intros depth. apply makeHandle_zero_collides.
  - intros [budget H].
    apply (H (fun _ => 0%N) 0 Sample.zeroTree).
    apply makeHandle_zero_collides.
Qed.

Lemma makeHandle_unfold depth rng k t :
  Handle._makeHandle (S depth) rng k t =
  if Dict.mem (Handle.format013x (Handle.getrandbits 52 (rng k))) (_items t)
  then Handle._makeHandle depth rng (S k) t
  else Some (Handle.format013x (Handle.getrandbits 52 (rng k)), S k).
Proof. reflexivity. Qed.

(** C9, amended: [_makeHandle] formats a 52-bit draw as 13 hex digits
    and retries by recursion, without a bound of its own: when the
    first [n] draws collide with the store and the next one does not,
    it returns that draw, a well-formed handle absent from the store,
    as soon as [n] nested calls are possible. *)
Theorem makeHandle_first_free (rng : nat -> N) (t : NWTree) (n : nat) :
  forall (k depth : nat),
  (forall j, j < n ->
     Dict.mem (Handle.format013x (Handle.getrandbits 52 (rng (k + j))))
              (_items t) = true) ->
  Dict.mem (Handle.format013x (Handle.getrandbits 52 (rng (k + n))))
           (_items t) = false ->
  n < depth ->
  exists handle,
    Handle._makeHandle depth rng k t = Some (handle, S (k + n))
    /\ handle = Handle.format013x (Handle.getrandbits 52 (rng (k + n)))
    /\ isHandle handle = true
    /\ Tree.contains t handle = false.
Proof.
  induction n as [|n IH]; intros k depth Hc Hf Hd.
  - destruct depth as [|depth]; [lia|].
    rewrite Nat.add_0_r in *. eexists.
    rewrite makeHandle_unfold, Hf.
    repeat split; auto using format013x_isHandle.
  - destruct depth as [|depth]; [lia|].
    rewrite makeHandle_unfold.
    pose proof (Hc 0 ltac:(lia)) as H0. rewrite Nat.add_0_r in H0.
    rewrite H0.
    destruct (IH (S k) depth) as (h & E & Hh & Hw & Hn).
    + intros j Hj. replace (S k + j) with (k + S j) by lia.
      apply Hc. lia.
    + now replace (S k + n) with (k + S n) by lia.
    + lia.
    + exists h. replace (k + S n) with (S k + n) by lia. auto.
Qed.

Lemma makeHandle_first_free_witness :
  exists handle,
    Handle._makeHandle 2 N.of_nat 0 Sample.zeroTree = Some (handle, 2)
    /\ handle = Sample.h1
    /\ isHandle handle = true
    /\ Tree.contains Sample.zeroTree handle = false.
Proof.
  apply (makeHandle_first_free N.of_nat Sample.zeroTree 1 0 2).
  - intros j Hj. destruct j as [|j]; [reflexivity | lia].
  - reflexivity.
  - lia.
Defined.

(** ** Loading a snapshot *)

Lemma unpack_snoc data d t :
  Tree.unpack (data ++ [d]) t = Tree.unpack_step (Tree.unpack data t) d.
Proof. unfold Tree.unpack. now rewrite fold_left_app. Qed.

Lemma accepted_snoc data d :
  Snapshot.accepted (data ++ [d]) =
  Snapshot.accepted data
  ++ match Item.unpack d with Some it => [it] | None => [] end.
Proof.
  unfold Snapshot.accepted. rewrite flat_map_app. simpl.
  now rewrite app_nil_r.
Qed.

Lemma unpack_itemHandle d it : Item.unpack d = Some it -> itemHandle it = d_handle d.
Proof.
  unfold Item.unpack. destruct (isHandle (d_handle d)); [|discriminate].
  now intros [= <-].
Qed.

Lemma unpack_isHandle d it : Item.unpack d = Some it -> isHandle (itemHandle it) = true.
Proof.
  unfold Item.unpack. destruct (isHandle (d_handle d)) eqn:E; [|discriminate].
  now intros [= <-].
Qed.

Lemma unpack_step_items t d :
  _items (Tree.unpack_step t d) =
  match Item.unpack d with
  | Some it => Dict.set (itemHandle it) it (_items t)
  | None => _items t
  end.
Proof.
  unfold Tree.unpack_step. destruct (Item.unpack d) as [it|]; [|reflexivity].
  destruct (nwItemClass_eqb (itemClass it) TRASH); reflexivity.
Qed.

Lemma unpack_step_trash t d :
  _trash (Tree.unpack_step t d) =
  match Item.unpack d with
  | Some it => if Snapshot.isTrashClass it then Some (itemHandle it)
               else _trash t
  | None => _trash t
  end.
Proof.
  unfold Tree.unpack_step, Snapshot.isTrashClass.
  destruct (Item.unpack d) as [it|]; [|reflexivity].
  destruct (nwItemClass_eqb (itemClass it) TRASH); reflexivity.
Qed.

Lemma unpack_step_rest t d :
  _model (Tree.unpack_step t d) = _model t
  /\ _nodes (Tree.unpack_step t d) = _nodes t
  /\ _changed (Tree.unpack_step t d) = _changed t.
Proof.
  unfold Tree.unpack_step. destruct (Item.unpack d) as [it|]; [|auto].
  destruct (nwItemClass_eqb (itemClass it) TRASH); auto.
Qed.

Lemma unpack_rest data t :
  _model (Tree.unpack data t) = Model.new
  /\ _nodes (Tree.unpack data t) = []
  /\ _changed (Tree.unpack data t) = false.
Proof.
  induction data as [|d data IH] using rev_ind.
  - auto.
  - rewrite unpack_snoc.
    destruct (unpack_step_rest (Tree.unpack data t) d) as (-> & -> & ->).
    exact IH.
Qed.

Lemma unpack_get data t h :
  Dict.get h (_items (Tree.unpack data t)) = Snapshot.lastItem h data.
Proof.
  unfold Snapshot.lastItem.
  induction data as [|d data IH] using rev_ind; [reflexivity|].
  rewrite unpack_snoc, unpack_step_items, accepted_snoc, rev_app_distr.
  destruct (Item.unpack d) as [it|]; simpl; [|exact IH].
  unfold Snapshot.hasHandle at 1.
  destruct (String.eqb (itemHandle it) h) eqn:E.
  - apply String.eqb_eq in E. subst h. apply get_set_same.
  - apply String.eqb_neq in E. rewrite get_set_other by congruence. exact IH.
Qed.

Lemma unpack_trash data t :
  _trash (Tree.unpack data t) = Snapshot.lastTrash data.
Proof.
  unfold Snapshot.lastTrash.
  induction data as [|d data IH] using rev_ind; [reflexivity|].
  rewrite unpack_snoc, unpack_step_trash, accepted_snoc, rev_app_distr.
  destruct (Item.unpack d) as [it|]; simpl; [|exact IH].
  destruct (Snapshot.isTrashClass it); [reflexivity | exact IH].
Qed.

Lemma unpack_keys data t :
  Dict.keys (_items (Tree.unpack data t)) =
  Snapshot.firstSeen (map itemHandle (Snapshot.accepted data)).
Proof.
  unfold Snapshot.firstSeen.
  induction data as [|d data IH] using rev_ind; [reflexivity|].
  rewrite unpack_snoc, unpack_step_items, accepted_snoc, map_app, rev_app_distr.
  destruct (Item.unpack d) as [it|]; simpl; [|exact IH].
  set (d0 := _items (Tree.unpack data t)) in *.
  destruct (in_dec string_dec (itemHandle it)
              (rev (map itemHandle (Snapshot.accepted data)))) as [I|I].
  - rewrite keys_set_present; [exact IH|].
    rewrite IH. apply -> in_rev. now apply nodup_In.
  - rewrite keys_set_fresh.
    + simpl. now rewrite IH.
    + rewrite IH. intros H. apply I.
      apply in_rev in H. now apply nodup_In in H.
Qed.

Lemma unpack_any_state data t1 t2 : Tree.unpack data t1 = Tree.unpack data t2.
Proof. reflexivity. Qed.

(** C10, as stated, fails: of two accepted records with one handle the
    store keeps the second only. *)
Lemma unpack_duplicate_replaces :
  let data := [Sample.novelRoot; Sample.novelRoot'] in
  exists it,
    Item.unpack Sample.novelRoot = Some it
    /\ In it (Snapshot.accepted data)
    /\ ~ In it (Dict.values (_items (Tree.unpack data Tree.init))).
Proof.
  eexists. split; [reflexivity|]. split.
  - simpl. auto.
  - simpl. intros [H|[]]. discriminate H.
Qed.

(** C10, amended: [unpack] starts from a cleared tree, so its result
    does not depend on the state before; afterwards the store holds,
    under each handle, the last record of that handle that is accepted,
    the handles standing in order of first appearance; the trash handle
    is that of the last accepted record of class TRASH, if any; the
    model is new, there are no nodes and the change flag is down. *)
Theorem unpack_from_any_state (data : list ItemData) (t1 t2 : NWTree) :
  Tree.unpack data t1 = Tree.unpack data t2
  /\ (forall h,
        Dict.get h (_items (Tree.unpack data t1)) = Snapshot.lastItem h data)
  /\ Dict.keys (_items (Tree.unpack data t1)) =
     Snapshot.firstSeen (map itemHandle (Snapshot.accepted data))
  /\ _trash (Tree.unpack data t1) = Snapshot.lastTrash data
  /\ _model (Tree.unpack data t1) = Model.new
  /\ _nodes (Tree.unpack data t1) = []
  /\ _changed (Tree.unpack data t1) = false.
Proof.
  split; [apply unpack_any_state|].
  split; [intros h; apply unpack_get|].
  split; [apply unpack_keys|].
  split; [apply unpack_trash|].
  apply unpack_rest.
Qed.

(** ** The heap of nodes *)

Lemma update_length i f m : List.length (Model.update i f m) = List.length m.
Proof.
  revert i. induction m as [|n m IH]; intros [|i]; simpl; auto.
Qed.

Lemma nth_error_update i f m j :
  nth_error (Model.update i f m) j =
  if j =? i then option_map f (nth_error m j) else nth_error m j.
Proof.
  revert i j. induction m as [|n m IH]; intros i j.
  - destruct i; simpl; destruct j; simpl; try reflexivity.
    now destruct (j =? i).
  - destruct i, j; simpl; auto.
Qed.

Section Attach.

Variables (t : NWTree) (pid : nat) (x : string).
Hypothesis pid_valid : pid < List.length (_model t).

Local Abbreviation m := (_model t).
Local Abbreviation m' := (_model (Build.attach t pid x)).

Lemma attach_items : _items (Build.attach t pid x) = _items t.
Proof. reflexivity. Qed.

Lemma attach_nodes :
  _nodes (Build.attach t pid x) =
  Dict.set x (List.length (_model t)) (_nodes t).
Proof. reflexivity. Qed.

Lemma attach_length : List.length m' = S (List.length m).
Proof.
  unfold Build.attach, Model.addChild. simpl.
  rewrite update_length, length_app. simpl. lia.
Qed.

Lemma attach_node i :
  Model.node m' i =
  if i =? pid then
    option_map (fun n => mkNode (node_item n) (node_children n ++ [List.length m]))
               (Model.node m i)
  else if i =? List.length m then Some (mkNode (Some x) [])
  else Model.node m i.
Proof.
  unfold Build.attach, Model.addChild, Model.node. simpl.
  rewrite nth_error_update.
  destruct (i =? pid) eqn:E.
  - apply Nat.eqb_eq in E. subst i. now rewrite nth_error_app1.
  - destruct (i =? List.length m) eqn:E2.
    + apply Nat.eqb_eq in E2. subst i.
      rewrite nth_error_app2 by lia. now rewrite Nat.sub_diag.
    + apply Nat.eqb_neq in E2.
      destruct (Nat.lt_ge_cases i (List.length m)).
      * now rewrite nth_error_app1.
      * rewrite nth_error_app2 by lia.
        destruct (i - List.length m) as [|[|k]] eqn:D; simpl; try lia.
        -- symmetry. apply nth_error_None. lia.
        -- symmetry. apply nth_error_None. lia.
Qed.

Lemma attach_handleOf c :
  Layer.handleOf m' c =
  if c =? List.length m then Some x else Layer.handleOf m c.
Proof.
  unfold Layer.handleOf. rewrite attach_node.
  destruct (c =? pid) eqn:E.
  - apply Nat.eqb_eq in E. subst c.
    destruct (pid =? List.length m) eqn:E2.
    + apply Nat.eqb_eq in E2. lia.
    + destruct (Model.node m pid); reflexivity.
  - destruct (c =? List.length m); reflexivity.
Qed.

Lemma attach_children i :
  Model.children m' i =
  if i =? pid then Model.children m i ++ [List.length m]
  else Model.children m i.
Proof.
  unfold Model.children. rewrite attach_node.
  destruct (i =? pid) eqn:E.
  - apply Nat.eqb_eq in E. subst i.
    destruct (Model.node m pid) eqn:N; simpl; auto.
    apply nth_error_None in N. lia.
  - destruct (i =? List.length m) eqn:E2; auto.
    apply Nat.eqb_eq in E2. subst i.
    destruct (Model.node m (List.length m)) eqn:N; auto.
    assert (List.length m < List.length m); [|lia].
    apply nth_error_Some. unfold Model.node in N. congruence.
Qed.

End Attach.

(** ** The builder keeps the node layer well formed *)

Import Layer Shape.

Lemma handleOf_lt m c h : handleOf m c = Some h -> c < List.length m.
Proof.
  unfold handleOf, Model.node. intros H. apply nth_error_Some.
  destruct (nth_error m c); congruence.
Qed.

Lemma children_lt m i c : In c (Model.children m i) -> i < List.length m.
Proof.
  unfold Model.children, Model.node. intros H. apply nth_error_Some.
  destruct (nth_error m i); [congruence | contradiction].
Qed.

Lemma child_lt t i c :
  wellFormed t -> In c (Model.children (_model t) i) ->
  c < List.length (_model t).
Proof.
  intros W H. destruct (wf_child W _ _ H) as (hc & itc & Hc & _).
  eapply handleOf_lt; eauto.
Qed.

Lemma attach_wellFormed t pid x itx :
  wellFormed t ->
  pid < List.length (_model t) ->
  Dict.get x (_items t) = Some itx ->
  Dict.get x (_nodes t) = None ->
  childOf (handleOf (_model t) pid) itx = true ->
  wellFormed (Build.attach t pid x).
Proof.
  intros W Hp Hx Hn Hc.
  assert (HL : forall c h, handleOf (_model t) c = Some h ->
                           (c =? List.length (_model t)) = false).
  { intros c h H. apply Nat.eqb_neq. apply handleOf_lt in H. lia. }
  assert (Hne : forall h i, Dict.get h (_nodes t) = Some i -> h <> x).
  { intros h i H ->. congruence. }
  constructor.
  - destruct (wf_root W) as [R L]. split.
    + rewrite attach_handleOf by assumption. unfold Model.root in *.
      destruct (0 =? List.length (_model t)) eqn:E; auto.
      apply Nat.eqb_eq in E. lia.
    + rewrite attach_length by assumption. lia.
  - intros i h. rewrite attach_handleOf, attach_nodes by assumption.
    destruct (i =? List.length (_model t)) eqn:E.
    + apply Nat.eqb_eq in E. intros [= <-]. subst i. apply get_set_same.
    + intros H. apply (wf_node W) in H.
      rewrite get_set_other; eauto.
  - intros h i. rewrite attach_handleOf, attach_nodes by assumption.
    destruct (string_dec h x) as [->|N].
    + rewrite get_set_same. intros [= <-]. now rewrite Nat.eqb_refl.
    + rewrite get_set_other by assumption. intros H.
      apply (wf_dict W) in H. now rewrite (HL _ _ H).
  - intros i c. rewrite attach_children, attach_items by assumption.
    rewrite !attach_handleOf by assumption.
    destruct (i =? pid) eqn:E.
    + apply Nat.eqb_eq in E. subst i.
      replace (pid =? List.length (_model t)) with false
        by (symmetry; apply Nat.eqb_neq; lia).
      rewrite in_app_iff. intros [H|[<-|[]]].
      * destruct (wf_child W _ _ H) as (hc & itc & H1 & H2 & H3).
        exists hc, itc. now rewrite (HL _ _ H1).
      * exists x, itx. now rewrite Nat.eqb_refl.
    + intros H. pose proof (children_lt _ _ _ H) as Hi.
      replace (i =? List.length (_model t)) with false
        by (symmetry; apply Nat.eqb_neq; lia).
      destruct (wf_child W _ _ H) as (hc & itc & H1 & H2 & H3).
      exists hc, itc. now rewrite (HL _ _ H1).
  - intros i. rewrite attach_children by assumption.
    destruct (i =? pid); [|apply (wf_nodup W)].
    apply NoDup_app; [apply (wf_nodup W) | repeat constructor; simpl; tauto |].
    intros c H [<-|[]]. apply (child_lt _ _ _ W) in H. lia.
  - intros i j c. rewrite !attach_children by assumption.
    assert (F : forall k, In c (Model.children (_model t) k) ->
                          c <> List.length (_model t)).
    { intros k H. apply (child_lt _ _ _ W) in H. lia. }
    destruct (i =? pid) eqn:Ei, (j =? pid) eqn:Ej;
      rewrite ?in_app_iff; simpl.
    + apply Nat.eqb_eq in Ei, Ej. congruence.
    + apply Nat.eqb_eq in Ei. subst i.
      intros [H|[<-|[]]] H'.
      * eapply (wf_uniq W); eauto.
      * exfalso. eapply F; eauto.
    + apply Nat.eqb_eq in Ej. subst j.
      intros H [H'|[<-|[]]].
      * eapply (wf_uniq W); eauto.
      * exfalso. eapply F; eauto.
    + apply (wf_uniq W).
  - intros c. rewrite attach_handleOf by assumption.
    destruct (c =? List.length (_model t)) eqn:E.
    + apply Nat.eqb_eq in E. subst c. intros _. exists pid.
      rewrite attach_children, Nat.eqb_refl by assumption.
      apply in_or_app. right. simpl. auto.
    + intros H. destruct (wf_cover W _ H) as [i Hi]. exists i.
      rewrite attach_children by assumption.
      destruct (i =? pid); auto. apply in_or_app. auto.
  - intros i. rewrite attach_length, attach_handleOf by assumption.
    destruct (i =? List.length (_model t)) eqn:E; [discriminate|].
    apply Nat.eqb_neq in E. intros L. apply (wf_item W). lia.
  - apply (wf_keys W).
  - apply (wf_nonempty W).
Qed.

Lemma sameLayer_refl t : sameLayer t t.
Proof. repeat split; auto. Qed.

Lemma sameLayer_trans t1 t2 t3 :
  sameLayer t1 t2 -> sameLayer t2 t3 -> sameLayer t1 t3.
Proof.
  intros (M1 & N1 & K1 & G1) (M2 & N2 & K2 & G2).
  repeat split; try congruence.
  intros c H. rewrite G2, G1; auto. now rewrite N1.
Qed.

Lemma sameLayer_wellFormed t t' :
  wellFormed t -> sameLayer t t' -> wellFormed t'.
Proof.
  intros W (M & N & K & G).
  constructor; rewrite ?M, ?N, ?K; try apply W.
  intros i c H. destruct (wf_child W _ _ H) as (hc & itc & H1 & H2 & H3).
  exists hc, itc. repeat split; auto.
  rewrite G; auto. apply (wf_node W) in H1. congruence.
Qed.

Lemma clearParent_get t x h :
  Dict.get h (_items (Build.clearParent t x)) =
  if String.eqb h x then option_map (Item.setParent None) (Dict.get x (_items t))
  else Dict.get h (_items t).
Proof.
  unfold Build.clearParent.
  destruct (String.eqb h x) eqn:E.
  - apply String.eqb_eq in E. subst h.
    destruct (Dict.get x (_items t)) eqn:G; simpl; [apply get_set_same | auto].
  - apply String.eqb_neq in E.
    destruct (Dict.get x (_items t)) eqn:G; simpl; auto.
    now apply get_set_other.
Qed.

Lemma clearParent_sameLayer t x :
  Dict.get x (_nodes t) = None -> sameLayer t (Build.clearParent t x).
Proof.
  intros Hn. unfold sameLayer. split; [|split; [|split]].
  - unfold Build.clearParent. now destruct (Dict.get x (_items t)).
  - unfold Build.clearParent. now destruct (Dict.get x (_items t)).
  - unfold Build.clearParent.
    destruct (Dict.get x (_items t)) eqn:G; simpl; auto.
    apply keys_set_present. apply get_In_keys. congruence.
  - intros c H. rewrite clearParent_get.
    destruct (String.eqb c x) eqn:E; auto.
    apply String.eqb_eq in E. congruence.
Qed.

Lemma childOf_inj a b it : childOf a it = true -> childOf b it = true -> a = b.
Proof.
  unfold childOf.
  destruct a, b, (truthy (itemParent it)); try discriminate; auto.
  rewrite !String.eqb_eq. congruence.
Qed.

Lemma inb_In k l : inb k l = true <-> In k l.
Proof.
  unfold inb. rewrite existsb_exists. split.
  - intros (y & I & E). apply String.eqb_eq in E. now subst.
  - intros I. exists k. split; auto. apply String.eqb_refl.
Qed.

Lemma step_outcome items t remains x itx :
  wellFormed t ->
  Dict.get x (_items t) = Some itx ->
  outcome items t remains x itx
          (Build.buildTree_step items (t, remains) x).
Proof.
  intros W G. unfold Build.buildTree_step. rewrite G.
  destruct (truthy (itemParent itx)) as [p|] eqn:T.
  - destruct (Dict.get p (_nodes t)) as [pid|] eqn:Np.
    + apply (wf_dict W) in Np. apply Attached.
      * eapply handleOf_lt; eauto.
      * rewrite Np. unfold childOf. rewrite T. apply String.eqb_refl.
    + destruct (inb p items) eqn:I.
      * apply Deferred with p; auto. now apply inb_In.
      * apply Orphaned with p; auto. rewrite <- inb_In. congruence.
  - destruct (Item.isRootType itx) eqn:R.
    + destruct (wf_root W) as [R0 L]. apply Attached; auto.
      rewrite R0. unfold childOf. now rewrite T.
    + now apply Skipped.
Qed.

Lemma pending_item t pending x :
  unattached t pending -> In x pending ->
  Dict.get x (_nodes t) = None
  /\ exists itx, Dict.get x (_items t) = Some itx.
Proof.
  intros U I. destruct (U x I) as [Hn Hk]. split; auto.
  apply get_In_keys in Hk.
  destruct (Dict.get x (_items t)) as [itx|]; [eauto | congruence].
Qed.

Lemma step_passInv items t remains x rest :
  passInv t (x :: rest ++ remains) ->
  passInv (fst (Build.buildTree_step items (t, remains) x))
          (rest ++ snd (Build.buildTree_step items (t, remains) x)).
Proof.
  intros (W & St & U & ND).
  destruct (pending_item _ _ x U (or_introl eq_refl)) as (Hn & itx & Hx).
  pose proof (NoDup_cons_iff x (rest ++ remains)) as [ND' _].
  destruct (ND' ND) as [Hnotin ND1]. clear ND'.
  destruct (step_outcome items t remains x itx W Hx)
    as [pid Hp Hc | p T Np I | p T Np I | T R]; simpl.
  - (* attached *)
    split; [|split; [|split]]; auto.
    + eapply attach_wellFormed; eauto.
    + intros h it. rewrite attach_items, attach_nodes. intros G.
      destruct (St h it G) as [H|[[->|H]|H]]; auto.
      * left. apply In_keys_set. auto.
      * left. apply In_keys_set. auto.
    + intros h I. rewrite attach_items, attach_nodes.
      destruct (U h (or_intror I)) as [H1 H2]. split; auto.
      rewrite get_set_other; auto. intros ->. contradiction.
  - (* deferred *)
    assert (E : forall h, In h (rest ++ remains ++ [x]) <->
                          In h (x :: rest ++ remains)).
    { intros h. simpl. rewrite !in_app_iff. simpl. tauto. }
    split; [|split; [|split]]; auto.
    + intros h it G. destruct (St h it G) as [H|[H|H]]; auto.
      right. left. now apply E.
    + intros h I'. apply U. now apply E.
    + rewrite app_assoc. eapply Permutation.Permutation_NoDup; [|exact ND].
      apply Permutation.Permutation_cons_append.
  - (* orphaned *)
    pose proof (clearParent_sameLayer t x Hn) as SL.
    split; [|split; [|split]]; auto.
    + eapply sameLayer_wellFormed; eauto.
    + intros h it. rewrite clearParent_get.
      destruct SL as (_ & -> & _ & _).
      destruct (String.eqb h x) eqn:E.
      * rewrite Hx. simpl. intros [= <-]. auto.
      * intros G. destruct (St h it G) as [H|[[->|H]|H]]; auto.
        rewrite String.eqb_refl in E. discriminate.
    + intros h I'. destruct SL as (_ & -> & -> & _). apply U. now right.
  - (* skipped *)
    split; [|split; [|split]]; auto.
    + intros h it G. destruct (St h it G) as [H|[[->|H]|H]]; auto.
      right. right. congruence.
    + intros h I'. apply U. now right.
Qed.

(** Induction over the items a pass goes through: a property [P] of
    the prefix seen so far, the tree and the items put off so far. *)
Section PassInduction.

Variable items : list string.
Variable P : list string -> NWTree -> list string -> Prop.

Hypothesis P_step : forall pre x rest t remains,
  items = pre ++ x :: rest ->
  NoDup items ->
  passInv t (x :: rest ++ remains) ->
  P pre t remains ->
  P (pre ++ [x])
    (fst (Build.buildTree_step items (t, remains) x))
    (snd (Build.buildTree_step items (t, remains) x)).

Lemma pass_fold rest : forall pre t remains,
  items = pre ++ rest ->
  NoDup items ->
  passInv t (rest ++ remains) ->
  P pre t remains ->
  let r := fold_left (Build.buildTree_step items) rest (t, remains) in
  passInv (fst r) (snd r) /\ P items (fst r) (snd r).
Proof.
  induction rest as [|x rest IH]; intros pre t remains E ND I HP;
    cbn [fold_left].
  - rewrite app_nil_r in E. subst pre. auto.
  - pose proof (step_passInv items t remains x rest I) as I'.
    pose proof (P_step pre x rest t remains E ND I HP) as HP'.
    destruct (Build.buildTree_step items (t, remains) x) as [t' remains'].
    cbn [fst snd] in *. apply (IH (pre ++ [x])); auto.
    rewrite <- app_assoc. exact E.
Qed.

End PassInduction.

Lemma pass_passInv items t :
  passInv t items ->
  passInv (fst (Build._buildTree t items)) (snd (Build._buildTree t items)).
Proof.
  intros I. unfold Build._buildTree.
  apply (pass_fold items (fun _ _ _ => True)) with (pre := []); auto.
  - destruct I as (_ & _ & _ & ND). exact ND.
  - now rewrite app_nil_r.
Qed.

Lemma buildLoop_nil n t : Build.buildLoop n t [] = t.
Proof. destruct n; reflexivity. Qed.

Lemma buildLoop_S n t later :
  Build.buildLoop (S n) t later =
  Build.buildLoop n (fst (Build._buildTree t later))
                  (snd (Build._buildTree t later)).
Proof.
  simpl. destruct (Build._buildTree t later) as [t' [|h later']]; simpl; auto.
  now rewrite buildLoop_nil.
Qed.

Lemma clearAll_passInv later : forall t,
  passInv t later ->
  passInv (fold_left Build.clearParent later t) [].
Proof.
  induction later as [|x later IH]; intros t I; simpl; auto.
  apply IH. destruct I as (W & St & U & ND).
  destruct (pending_item _ _ x U (or_introl eq_refl)) as (Hn & itx & Hx).
  pose proof (clearParent_sameLayer t x Hn) as SL.
  apply NoDup_cons_iff in ND. destruct ND as [Hnotin ND].
  split; [|split; [|split]]; auto.
  - eapply sameLayer_wellFormed; eauto.
  - intros h it. rewrite clearParent_get.
    destruct SL as (_ & -> & _ & _).
    destruct (String.eqb h x) eqn:E.
    + rewrite Hx. simpl. intros [= <-]. auto.
    + intros G. destruct (St h it G) as [H|[[->|H]|H]]; auto.
      rewrite String.eqb_refl in E. discriminate.
  - intros h I'. destruct SL as (_ & -> & -> & _). apply U. now right.
Qed.

Lemma buildLoop_passInv n : forall t later,
  passInv t later -> passInv (Build.buildLoop n t later) [].
Proof.
  induction n as [|n IH]; intros t later I.
  - now apply clearAll_passInv.
  - rewrite buildLoop_S. apply IH. now apply pass_passInv.
Qed.

Lemma loaded_passInv t : loaded t -> passInv t (Dict.keys (_items t)).
Proof.
  intros (M & N & ND & NE).
  assert (HO : forall i, handleOf (_model t) i = None).
  { intros i. rewrite M. unfold handleOf, Model.node, Model.new.
    destruct i as [|[|i]]; reflexivity. }
  assert (HC : forall i, Model.children (_model t) i = []).
  { intros i. rewrite M. unfold Model.children, Model.node, Model.new.
    destruct i as [|[|i]]; reflexivity. }
  split; [|split; [|split]]; auto.
  - constructor; auto.
    + split; auto. rewrite M. simpl. lia.
    + intros i h. rewrite HO. discriminate.
    + intros h i. rewrite N. discriminate.
    + intros i c. rewrite HC. contradiction.
    + intros i. rewrite HC. constructor.
    + intros i j c. rewrite HC. contradiction.
    + intros c. rewrite HO. congruence.
    + intros i. rewrite M. simpl. unfold Model.root. lia.
  - intros h it G. right. left. apply get_In_keys. congruence.
  - intros h I. rewrite N. auto.
Qed.

Lemma buildModel_passInv t :
  loaded t -> passInv (Build.buildModel t) [].
Proof.
  intros L. apply buildLoop_passInv. now apply loaded_passInv.
Qed.

(** ** The children of a node *)



Lemma childOf_Some h it :
  childOf (Some h) it = true <-> truthy (itemParent it) = Some h.
Proof.
  unfold childOf. destruct (truthy (itemParent it)) as [p|].
  - rewrite String.eqb_eq. split; congruence.
  - split; discriminate.
Qed.

Lemma in_childHandles t i h :
  In h (childHandles t i) <->
  exists c, In c (Model.children (_model t) i)
            /\ handleOf (_model t) c = Some h.
Proof.
  unfold childHandles. rewrite in_flat_map. split.
  - intros (c & I & H). exists c. split; auto.
    destruct (handleOf (_model t) c); simpl in H; [|contradiction].
    destruct H as [->|[]]. reflexivity.
  - intros (c & I & H). exists c. split; auto. rewrite H. simpl. auto.
Qed.







(** ** The order of the children *)

Lemma flat_map_ext_In {A B} (f g : A -> list B) l :
  (forall a, In a l -> f a = g a) -> flat_map f l = flat_map g l.
Proof.
  induction l as [|a l IH]; simpl; intros H; auto.
  rewrite H, IH; auto.
Qed.

Lemma childHandles_attach t pid x i :
  wellFormed t -> pid < List.length (_model t) ->
  childHandles (Build.attach t pid x) i =
  if i =? pid then childHandles t i ++ [x] else childHandles t i.
Proof.
  intros W Hp. unfold childHandles.
  rewrite attach_children by assumption.
  assert (E : forall l,
    (forall c, In c l -> c < List.length (_model t)) ->
    flat_map (fun c => match handleOf (_model (Build.attach t pid x)) c with
                       | Some h => [h] | None => [] end) l =
    flat_map (fun c => match handleOf (_model t) c with
                       | Some h => [h] | None => [] end) l).
  { intros l Hl. apply flat_map_ext_In. intros c Hc.
    rewrite attach_handleOf by assumption.
    replace (c =? List.length (_model t)) with false; auto.
    symmetry. apply Nat.eqb_neq. apply Hl in Hc. lia. }
  destruct (i =? pid).
  - rewrite flat_map_app, E by (intros c; apply child_lt; auto).
    cbn [flat_map]. rewrite attach_handleOf, Nat.eqb_refl by assumption.
    reflexivity.
  - apply E. intros c. apply child_lt; auto.
Qed.

Lemma mem_set_other {V} (k k' : string) (v : V) d :
  k <> k' -> Dict.mem k (Dict.set k' v d) = Dict.mem k d.
Proof. intros H. unfold Dict.mem. now rewrite get_set_other. Qed.

Lemma mem_false {V} (k : string) (d : Dict.t V) :
  Dict.get k d = None -> Dict.mem k d = false.
Proof. unfold Dict.mem. now intros ->. Qed.

Lemma belongsTo_attach_other t pid x ph c :
  c <> x -> belongsTo (Build.attach t pid x) ph c = belongsTo t ph c.
Proof.
  intros H. unfold belongsTo. rewrite attach_items, attach_nodes.
  now rewrite mem_set_other.
Qed.

Lemma belongsTo_attach_same t pid x ph itx :
  Dict.get x (_items t) = Some itx ->
  belongsTo (Build.attach t pid x) ph x = childOf ph itx.
Proof.
  intros G. unfold belongsTo. rewrite attach_items, attach_nodes, G.
  unfold Dict.mem. now rewrite get_set_same.
Qed.

Lemma belongsTo_unattached t ph x :
  Dict.get x (_nodes t) = None -> belongsTo t ph x = false.
Proof.
  intros H. unfold belongsTo. rewrite (mem_false _ _ H).
  now destruct (Dict.get x (_items t)).
Qed.

Lemma sameLayer_belongsTo t t' ph c :
  sameLayer t t' -> belongsTo t' ph c = belongsTo t ph c.
Proof.
  intros (M & N & K & G). unfold belongsTo. rewrite N.
  destruct (Dict.get c (_nodes t)) as [k|] eqn:E.
  - rewrite G by congruence. reflexivity.
  - rewrite (mem_false _ _ E).
    destruct (Dict.get c (_items t')), (Dict.get c (_items t)); reflexivity.
Qed.

Lemma sameLayer_ordered t t' seen :
  sameLayer t t' -> ordered t seen -> ordered t' seen.
Proof.
  intros SL O i Hi. pose proof SL as (M & _).
  unfold childHandles. rewrite M in *.
  erewrite filter_ext; [apply (O i Hi)|].
  intros c. now apply sameLayer_belongsTo.
Qed.

(** An item without a node has no child with a node. *)
Lemma belongsTo_no_node t x c :
  wellFormed t -> Dict.get x (_nodes t) = None ->
  belongsTo t (Some x) c = false.
Proof.
  intros W Hn. unfold belongsTo.
  destruct (Dict.get c (_items t)) as [it|] eqn:G; auto.
  destruct (Dict.get c (_nodes t)) as [k|] eqn:Nk;
    [|now rewrite (mem_false _ _ Nk)].
  destruct (childOf (Some x) it) eqn:C; [|apply andb_false_r].
  exfalso. apply (wf_dict W) in Nk.
  destruct (wf_cover W k) as [j Hj]; [congruence|].
  destruct (wf_child W _ _ Hj) as (hc & itc & H1 & H2 & H3).
  assert (hc = c) by congruence. subst hc.
  assert (itc = it) by congruence. subst itc.
  pose proof (childOf_inj _ _ _ H3 C) as E.
  apply (wf_node W) in E. congruence.
Qed.

Lemma step_ordered items pre x rest t remains :
  items = pre ++ x :: rest ->
  NoDup items ->
  passInv t (x :: rest ++ remains) ->
  ordered t pre ->
  ordered (fst (Build.buildTree_step items (t, remains) x)) (pre ++ [x]).
Proof.
  intros E ND (W & St & U & NDp) O.
  destruct (pending_item _ _ x U (or_introl eq_refl)) as (Hn & itx & Hx).
  assert (Hpre : ~ In x pre).
  { subst items. apply NoDup_remove_2 in ND. rewrite in_app_iff in ND. tauto. }
  assert (Hstay : forall t' : NWTree, sameLayer t t' -> ordered t' (pre ++ [x])).
  { intros t' SL i Hi. rewrite filter_app. simpl.
    rewrite (sameLayer_belongsTo _ _ _ x SL), belongsTo_unattached by auto.
    rewrite app_nil_r. now apply (sameLayer_ordered t t'). }
  destruct (step_outcome items t remains x itx W Hx)
    as [pid Hp Hc | p T Np I | p T Np I | T R]; cbn [fst].
  - intros i Hi. rewrite attach_length in Hi by assumption.
    rewrite childHandles_attach, filter_app, attach_handleOf by assumption.
    replace (filter (belongsTo (Build.attach t pid x)
               (if i =? List.length (_model t) then Some x
                else handleOf (_model t) i)) pre)
      with (filter (belongsTo t
               (if i =? List.length (_model t) then Some x
                else handleOf (_model t) i)) pre).
    2:{ apply filter_ext_in. intros c Hc'. symmetry.
        apply belongsTo_attach_other. congruence. }
    cbn [filter]. rewrite (belongsTo_attach_same _ _ _ _ _ Hx).
    destruct (i =? List.length (_model t)) eqn:El.
    + apply Nat.eqb_eq in El. subst i.
      replace (List.length (_model t) =? pid) with false
        by (symmetry; apply Nat.eqb_neq; lia).
      assert (childHandles t (List.length (_model t)) = []) as ->.
      { unfold childHandles, Model.children, Model.node.
        now rewrite (proj2 (nth_error_None _ _) (Nat.le_refl _)). }
      assert (childOf (Some x) itx = false) as ->.
      { destruct (childOf (Some x) itx) eqn:C; auto.
        pose proof (childOf_inj _ _ _ Hc C) as E'.
        apply (wf_node W) in E'. congruence. }
      erewrite filter_ext; [|intros c; apply belongsTo_no_node; auto].
      clear. induction pre; simpl; auto.
    + apply Nat.eqb_neq in El. assert (Hi' : i < List.length (_model t)) by lia.
      rewrite (O i Hi').
      destruct (i =? pid) eqn:Ep.
      * apply Nat.eqb_eq in Ep. subst i. now rewrite Hc.
      * apply Nat.eqb_neq in Ep.
        destruct (childOf (handleOf (_model t) i) itx) eqn:C;
          [|now rewrite app_nil_r].
        exfalso. apply Ep.
        pose proof (childOf_inj _ _ _ C Hc) as E'.
        destruct (handleOf (_model t) i) as [h|] eqn:Hh.
        -- symmetry in E'. apply (wf_node W) in Hh, E'. congruence.
        -- symmetry in E'. apply (wf_item W) in Hh, E'; auto. congruence.
  - apply Hstay, sameLayer_refl.
  - apply Hstay. now apply clearParent_sameLayer.
  - apply Hstay, sameLayer_refl.
Qed.

Lemma step_items_other items t remains x y :
  y <> x ->
  Dict.get y (_items (fst (Build.buildTree_step items (t, remains) x))) =
  Dict.get y (_items t).
Proof.
  intros H. unfold Build.buildTree_step.
  destruct (Dict.get x (_items t)) as [itx|]; auto.
  destruct (truthy (itemParent itx)) as [p|].
  - destruct (Dict.get p (_nodes t)); auto.
    destruct (inb p items); auto. cbn [fst].
    rewrite clearParent_get.
    apply String.eqb_neq in H. now rewrite H.
  - destruct (Item.isRootType itx); auto.
Qed.








Lemma clearAll_sameLayer later : forall t,
  unattached t later -> sameLayer t (fold_left Build.clearParent later t).
Proof.
  induction later as [|x later IH]; intros t U; simpl.
  - apply sameLayer_refl.
  - destruct (U x (or_introl eq_refl)) as [Hn _].
    pose proof (clearParent_sameLayer t x Hn) as SL.
    eapply sameLayer_trans; [exact SL|]. apply IH.
    intros h Hh. destruct (U h (or_intror Hh)) as [H1 H2].
    destruct SL as (_ & -> & -> & _). auto.
Qed.








Lemma accepted_isHandle data it :
  In it (Snapshot.accepted data) -> isHandle (itemHandle it) = true.
Proof.
  unfold Snapshot.accepted. rewrite in_flat_map. intros (d & _ & H).
  destruct (Item.unpack d) as [it'|] eqn:E; [|contradiction].
  destruct H as [->|[]]. eapply unpack_isHandle; eauto.
Qed.

Lemma unpack_loaded data t : loaded (Tree.unpack data t).
Proof.
  destruct (unpack_rest data t) as (M & N & _).
  split; [|split; [|split]]; auto.
  - rewrite unpack_keys. unfold Snapshot.firstSeen.
    apply NoDup_rev, NoDup_nodup.
  - rewrite unpack_keys. unfold Snapshot.firstSeen.
    rewrite <- in_rev, nodup_In, <- in_rev, in_map_iff.
    intros (it & E & I). apply accepted_isHandle in I.
    rewrite E in I. discriminate.
Qed.




(** ** Caching the root of an item *)

Import Chain.









(** ** Recovering content that no item tracks *)

Lemma resolveParent_declared t prefix p oClass :
  Dict.mem p (_nodes t) = true ->
  Consistency.resolveParent t prefix (Some p) oClass = Ok (p, t).
Proof. intros H. unfold Consistency.resolveParent. now rewrite H. Qed.

Lemma resolveParent_fallback t prefix oParent oClass :
  match oParent with
  | Some p => Dict.mem p (_nodes t) = false
  | None => True
  end ->
  Consistency.resolveParent t prefix oParent oClass =
  match Query.findRoot t (Some oClass) with
  | Some r => Ok (r, t)
  | None =>
      match Query.findRoot t (Some NOVEL) with
      | Some r => Ok (r, t)
      | None => Raise AssertionError
      end
  end.
Proof.
  intros H. unfold Consistency.resolveParent.
  assert (E : match oParent with
              | Some p => if Dict.mem p (_nodes t) then Some p else None
              | None => None
              end = None).
  { destruct oParent as [p|]; auto. now rewrite H. }
  rewrite E.
  destruct (Query.findRoot t (Some oClass)); auto.
  destruct (Query.findRoot t (Some NOVEL)); auto.
Qed.

Lemma recoveredItem_name prefix cHandle m oParent :
  itemName (Consistency.recoveredItem prefix cHandle m oParent) =
  (("[" ++ prefix ++ "] ")
   ++ (if String.eqb (m_name m) "" then cHandle else m_name m))%string.
Proof. reflexivity. Qed.

(** C6: with no root of the declared class and no NOVEL root, recovery
    is to make a new NOVEL root; [create] returns [None], so the
    assertion that follows fails and the check is abandoned: here for
    one stray unit and an empty tree, and whenever the declared parent
    has no node and neither lookup finds a root. *)
Theorem checkConsistency_without_root :
  Consistency.checkConsistency [Sample.h4] Sample.strayMeta "Recovered" Tree.init
  = Raise AssertionError
  /\ forall t prefix oParent oClass,
       match oParent with
       | Some p => Dict.mem p (_nodes t) = false
       | None => True
       end ->
       Query.findRoot t (Some oClass) = None ->
       Query.findRoot t (Some NOVEL) = None ->
       Consistency.resolveParent t prefix oParent oClass = Raise AssertionError.
Proof.
  split; [reflexivity|].
  intros t prefix oParent oClass H H1 H2.
  now rewrite resolveParent_fallback, H1, H2.
Qed.

(** ** The single trash root *)

Import Snapshot.

Lemma keys_of_items (l : list NWItem) :
  Dict.keys (map (fun it => (itemHandle it, it)) l) = map itemHandle l.
Proof. unfold Dict.keys. rewrite map_map. reflexivity. Qed.

Lemma values_of_items (l : list NWItem) :
  Dict.values (map (fun it => (itemHandle it, it)) l) = l.
Proof. unfold Dict.values. rewrite map_map. simpl. apply map_id. Qed.

Lemma unpack_items_distinct data t :
  NoDup (map itemHandle (Snapshot.accepted data)) ->
  _items (Tree.unpack data t) =
  map (fun it => (itemHandle it, it)) (Snapshot.accepted data).
Proof.
  induction data as [|d data IH] using rev_ind; intros ND; [reflexivity|].
  rewrite unpack_snoc, unpack_step_items, accepted_snoc in *.
  destruct (Item.unpack d) as [it|].
  - rewrite map_app in ND. simpl in ND.
    pose proof (NoDup_remove_2 _ _ _ ND) as Hn. rewrite app_nil_r in Hn.
    apply NoDup_remove_1 in ND. rewrite app_nil_r in ND.
    rewrite IH by assumption.
    rewrite set_fresh by now rewrite keys_of_items.
    now rewrite map_app.
  - rewrite app_nil_r in *. auto.
Qed.










(** ** Packing what was loaded and built *)

Lemma distinct_NoDup l : Snapshot.distinct l = true -> NoDup l.
Proof.
  induction l as [|x l IH]; simpl; intros H; constructor.
  - apply andb_true_iff in H. destruct H as [H _].
    rewrite <- inb_In. now destruct (inb x l).
  - apply IH. apply andb_true_iff in H. tauto.
Qed.

Lemma attachableFrom_sound data : forall seen,
  Snapshot.attachableFrom seen data = true ->
  forall d1 d d2, data = d1 ++ d :: d2 ->
    match truthy (d_parent d) with
    | Some p => In p (seen ++ map d_handle d1)
    | None => d_type d = ROOT
    end.
Proof.
  induction data as [|a data IH]; intros seen A d1 d d2 E.
  - destruct d1; discriminate.
  - simpl in A. apply andb_true_iff in A. destruct A as [A1 A2].
    destruct d1 as [|b d1]; simpl in E; injection E as E1 E2.
    + subst a. simpl. rewrite app_nil_r.
      destruct (truthy (d_parent d)).
      * now apply inb_In.
      * now apply nwItemType_eqb_eq.
    + subst b. specialize (IH _ A2 d1 d d2 E2).
      simpl. destruct (truthy (d_parent d)); auto.
      now rewrite <- app_assoc in IH.
Qed.

Lemma get_of_data data d :
  NoDup (map d_handle data) -> In d data ->
  Dict.get (d_handle d) (map (fun d => (d_handle d, Item.ofData d)) data)
  = Some (Item.ofData d).
Proof.
  induction data as [|a data IH]; simpl; intros ND I; [contradiction|].
  apply NoDup_cons_iff in ND. destruct ND as [Ha ND].
  destruct I as [->|I].
  - now rewrite String.eqb_refl.
  - destruct (String.eqb (d_handle d) (d_handle a)) eqn:E; auto.
    apply String.eqb_eq in E. exfalso. apply Ha. rewrite <- E.
    now apply in_map.
Qed.

Lemma node_object_handleOf t c :
  Tree.node_object t c =
  match handleOf (_model t) c with
  | Some h => Dict.get h (_items t)
  | None => None
  end.
Proof.
  unfold Tree.node_object, handleOf.
  destruct (Model.node (_model t) c); reflexivity.
Qed.

Lemma children_handles t i :
  wellFormed t ->
  map (handleOf (_model t)) (Model.children (_model t) i) =
  map Some (childHandles t i).
Proof.
  intros W. unfold childHandles.
  assert (H : forall c, In c (Model.children (_model t) i) ->
                        handleOf (_model t) c <> None).
  { intros c Hc. destruct (wf_child W _ _ Hc) as (hc & _ & E & _).
    congruence. }
  induction (Model.children (_model t) i) as [|c l IH]; simpl; auto.
  destruct (handleOf (_model t) c) as [h|] eqn:E.
  - simpl. rewrite IH; auto. intros c' Hc'. apply H. now right.
  - exfalso. apply (H c); simpl; auto.
Qed.

Section RoundTrip.

Variables (data : list ItemData) (t0 : NWTree).
Hypothesis WL : Snapshot.wellListed data = true.

Local Abbreviation t := (Tree.unpack data t0).
Local Abbreviation keys := (Dict.keys (_items (Tree.unpack data t0))).

Lemma wellListed_parts :
  (forall d, In d data -> isHandle (d_handle d) = true)
  /\ NoDup (map d_handle data)
  /\ Snapshot.attachableFrom [] data = true.
Proof.
  unfold Snapshot.wellListed in WL.
  apply andb_true_iff in WL. destruct WL as [H A].
  apply andb_true_iff in H. destruct H as [H D].
  split; [|split]; auto.
  - now apply forallb_forall.
  - now apply distinct_NoDup.
Qed.

Lemma accepted_all : Snapshot.accepted data = map Item.ofData data.
Proof.
  destruct wellListed_parts as (H & _ & _). clear WL.
  unfold Snapshot.accepted.
  induction data as [|d l IH]; simpl; auto.
  unfold Item.unpack at 1. rewrite H by (simpl; auto).
  simpl. f_equal. apply IH. intros d' Hd'. apply H. now right.
Qed.

Lemma items_of_data :
  _items t = map (fun d => (d_handle d, Item.ofData d)) data.
Proof.
  destruct wellListed_parts as (_ & ND & _).
  rewrite unpack_items_distinct, accepted_all.
  - now rewrite map_map.
  - rewrite accepted_all, map_map. exact ND.
Qed.

Lemma keys_of_data : keys = map d_handle data.
Proof.
  rewrite items_of_data. unfold Dict.keys. now rewrite map_map.
Qed.

Lemma get_data d :
  In d data -> Dict.get (d_handle d) (_items t) = Some (Item.ofData d).
Proof.
  destruct wellListed_parts as (_ & ND & _).
  rewrite items_of_data. now apply get_of_data.
Qed.

Lemma attachable_next pre x rest itx :
  keys = pre ++ x :: rest ->
  Dict.get x (_items t) = Some itx ->
  match truthy (itemParent itx) with
  | Some p => In p pre
  | None => Item.isRootType itx = true
  end.
Proof.
  destruct wellListed_parts as (_ & ND & A).
  rewrite keys_of_data. intros E G.
  apply map_eq_app in E. destruct E as (d1 & l2 & E & E1 & E2).
  apply map_eq_cons in E2. destruct E2 as (d & d2 & -> & Ex & E3).
  subst x pre.
  rewrite get_data in G by (rewrite E; apply in_or_app; right; now left).
  injection G as <-.
  pose proof (attachableFrom_sound data [] A d1 d d2 E) as H.
  cbn [app] in H. simpl.
  destruct (truthy (d_parent d)); auto.
  unfold Item.isRootType. simpl. now apply nwItemType_eqb_eq.
Qed.

(** Under these conditions the first pass attaches every item. *)
Lemma step_attached pre x rest t' remains :
  keys = pre ++ x :: rest ->
  NoDup keys ->
  passInv t' (x :: rest ++ remains) ->
  remains = [] /\ _items t' = _items t
  /\ (forall h, In h pre -> Dict.get h (_nodes t') <> None)
  /\ List.length (_model t') = S (List.length pre) ->
  let r := Build.buildTree_step keys (t', remains) x in
  snd r = [] /\ _items (fst r) = _items t
  /\ (forall h, In h (pre ++ [x]) -> Dict.get h (_nodes (fst r)) <> None)
  /\ List.length (_model (fst r)) = S (List.length (pre ++ [x])).
Proof.
  intros E ND (W & St & U & NDp) (R & S & A & L).
  destruct (pending_item _ _ x U (or_introl eq_refl)) as (Hn & itx & Hx).
  pose proof Hx as Hx'. rewrite S in Hx'.
  pose proof (attachable_next pre x rest itx E Hx') as Att.
  destruct (step_outcome keys t' remains x itx W Hx)
    as [pid Hp Hc | p T Np I | p T Np I | T Rt]; cbn zeta; cbn [fst snd].
  - split; [exact R | split; [exact S | split]].
    + intros h Hh. rewrite attach_nodes.
      apply in_app_or in Hh. destruct Hh as [Hh|[<-|[]]].
      * rewrite get_set_other; [now apply A|]. intros ->. now apply (A x).
      * rewrite get_set_same. discriminate.
    + rewrite attach_length, length_app by assumption. simpl. lia.
  - exfalso. rewrite T in Att. now apply (A p).
  - exfalso. rewrite T in Att. now apply (A p).
  - exfalso. rewrite T in Att. congruence.
Qed.

Lemma pass_all :
  let r := Build._buildTree t keys in
  passInv (fst r) [] /\ snd r = [] /\ _items (fst r) = _items t
  /\ (forall h, In h keys -> Dict.get h (_nodes (fst r)) <> None)
  /\ List.length (_model (fst r)) = S (List.length keys)
  /\ ordered (fst r) keys.
Proof.
  pose proof (unpack_loaded data t0) as L.
  pose proof (loaded_passInv t L) as I.
  pose proof L as (M & N & ND & NE).
  unfold Build._buildTree.
  destruct (pass_fold keys
    (fun pre t' remains =>
       (remains = [] /\ _items t' = _items t
        /\ (forall h, In h pre -> Dict.get h (_nodes t') <> None)
        /\ List.length (_model t') = S (List.length pre))
       /\ ordered t' pre))
    with (rest := keys) (pre := @nil string) (t := t) (remains := @nil string)
    as (I' & (R & S & A & Len) & O); auto.
  - intros pre x rest t' remains E ND' I' [H O]. split.
    + now apply (step_attached pre x rest).
    + eapply step_ordered; eauto.
  - now rewrite app_nil_r.
  - split; [split; [|split; [|split]]|]; auto.
    + now rewrite M.
    + intros i Hi. unfold childHandles, Model.children, Model.node.
      rewrite M. destruct i as [|[|i]]; reflexivity.
  - cbn zeta. rewrite R in I'.
    split; [exact I' | split; [exact R | split; [exact S | split;
      [exact A | split; [exact Len | exact O]]]]].
Qed.

Lemma buildModel_first_pass :
  Build.buildModel t = fst (Build._buildTree t keys).
Proof.
  destruct pass_all as (_ & R & _).
  unfold Build.buildModel. rewrite buildLoop_S, R. apply buildLoop_nil.
Qed.

Local Abbreviation built := (fst (Build._buildTree t keys)).

Lemma built_belongsTo ph d :
  In d data ->
  belongsTo built ph (d_handle d) = childOf ph (Item.ofData d).
Proof.
  intros Hd. destruct pass_all as (_ & _ & S & A & _).
  unfold belongsTo. rewrite S, (get_data d Hd).
  assert (H : Dict.mem (d_handle d) (_nodes built) = true).
  { unfold Dict.mem.
    destruct (Dict.get (d_handle d) (_nodes built)) eqn:G; auto.
    exfalso. revert G. apply A. rewrite keys_of_data. now apply in_map. }
  now rewrite H.
Qed.

Lemma children_data i :
  i < List.length (_model built) ->
  map (handleOf (_model built)) (Model.children (_model built) i) =
  map (fun d => Some (d_handle d))
      (Snapshot.kids (handleOf (_model built) i) data).
Proof.
  intros Hi. destruct pass_all as ((W & _) & _ & _ & _ & _ & O).
  rewrite (children_handles built i W), (O i Hi).
  transitivity
    (map Some (filter (belongsTo built (handleOf (_model built) i))
                      (map d_handle data))).
  { f_equal. f_equal. apply keys_of_data. }
  rewrite filter_map_swap, map_map. f_equal.
  apply filter_ext_in. intros d Hd. now apply built_belongsTo.
Qed.

Lemma pack_ofData d : Item.pack (Item.ofData d) = d.
Proof. now destruct d. Qed.

Lemma packed_node c d :
  In d data ->
  handleOf (_model built) c = Some (d_handle d) ->
  match Tree.node_object built c with
  | Some it => [Item.pack it]
  | None => []
  end = [d].
Proof.
  intros Hd Hc. destruct pass_all as (_ & _ & S & _).
  rewrite node_object_handleOf, Hc, S, (get_data d Hd).
  now rewrite pack_ofData.
Qed.

Lemma walk_built fuel : forall i,
  i < List.length (_model built) ->
  flat_map (fun c => match Tree.node_object built c with
                     | Some it => [Item.pack it]
                     | None => []
                     end)
           (Model.descend fuel (_model built) i)
  = Snapshot.walk fuel data (handleOf (_model built) i).
Proof.
  induction fuel as [|fuel IH]; intros i Hi; [reflexivity|].
  cbn [Model.descend Snapshot.walk].
  pose proof (children_data i Hi) as E.
  assert (Sub : forall d,
            In d (Snapshot.kids (handleOf (_model built) i) data) ->
            In d data).
  { intros d Hd. unfold Snapshot.kids in Hd.
    now apply filter_In in Hd. }
  revert E Sub.
  generalize (Snapshot.kids (handleOf (_model built) i) data) as ds.
  induction (Model.children (_model built) i) as [|c cs IHc];
    intros [|d ds] E Sub; try discriminate; [reflexivity|].
  cbn [map] in E. injection E as Ec E.
  cbn [flat_map]. rewrite flat_map_app. cbn [flat_map].
  rewrite (packed_node c d) by (auto; apply Sub; now left).
  rewrite IH by (eapply handleOf_lt; eauto).
  rewrite Ec. cbn [app]. f_equal. f_equal.
  apply IHc; auto. intros d' Hd'. apply Sub. now right.
Qed.

Lemma pack_built : Tree.pack (Build.buildModel t) = Snapshot.traversal data.
Proof.
  rewrite buildModel_first_pass.
  destruct pass_all as ((W & _) & _ & _ & _ & Len & _).
  unfold Tree.pack, Model.allChildren, Snapshot.traversal.
  rewrite walk_built by (unfold Model.root; lia).
  rewrite (proj1 (wf_root W)), Len, keys_of_data, length_map.
  reflexivity.
Qed.

End RoundTrip.

(** ** Lists in document order *)

Import Forest.

Lemma kids_app ph l1 l2 :
  Snapshot.kids ph (l1 ++ l2) = Snapshot.kids ph l1 ++ Snapshot.kids ph l2.
Proof. apply filter_app. Qed.

Lemma kids_cons ph d l :
  Snapshot.kids ph (d :: l) =
  if childOf ph (Item.ofData d) then d :: Snapshot.kids ph l
  else Snapshot.kids ph l.
Proof. reflexivity. Qed.

Lemma NoDup_app_disjoint {A} (l1 l2 : list A) x :
  NoDup (l1 ++ l2) -> In x l1 -> ~ In x l2.
Proof.
  induction l1 as [|a l1 IH]; simpl; intros ND I; [contradiction|].
  apply NoDup_cons_iff in ND. destruct ND as [Ha ND].
  destruct I as [->|I]; auto.
  intros I2. apply Ha. apply in_or_app. now right.
Qed.

Lemma filter_none_out_of_forest :
  (forall t q ph,
     underT q t = true -> ph <> q ->
     (forall h, ph = Some h -> ~ In h (map d_handle (flatT t))) ->
     Snapshot.kids ph (flatT t) = [])
  /\ (forall f q ph,
        underF q f = true -> ph <> q ->
        (forall h, ph = Some h -> ~ In h (map d_handle (flatF f))) ->
        Snapshot.kids ph (flatF f) = []).
Proof.
  apply rtree_rforest_ind.
  - intros d below IH q ph U Nq Hh. cbn [underT] in U.
    apply andb_true_iff in U. destruct U as [Ud Ub].
    cbn [flatT]. rewrite kids_cons.
    destruct (childOf ph (Item.ofData d)) eqn:C.
    + exfalso. apply Nq. eapply childOf_inj; eauto.
    + apply (IH (Some (d_handle d))); auto.
      * intros ->. apply (Hh (d_handle d)); auto. cbn. now left.
      * intros h E I. apply (Hh h E). cbn. now right.
  - reflexivity.
  - intros t IHt f IHf q ph U Nq Hh. cbn [underF] in U.
    apply andb_true_iff in U. destruct U as [Ut Uf].
    cbn [flatF]. rewrite kids_app.
    rewrite (IHt q ph), (IHf q ph); auto.
    + intros h E I. apply (Hh h E). cbn [flatF].
      rewrite map_app. apply in_or_app. now right.
    + intros h E I. apply (Hh h E). cbn [flatF].
      rewrite map_app. apply in_or_app. now left.
Qed.

Lemma kids_of_forest f : forall q,
  underF q f = true ->
  (forall h, q = Some h -> ~ In h (map d_handle (flatF f))) ->
  Snapshot.kids q (flatF f) = rootsF f.
Proof.
  induction f as [|[d below] f IH]; intros q U Hh; [reflexivity|].
  cbn [underF underT] in U.
  apply andb_true_iff in U. destruct U as [Ut Uf].
  apply andb_true_iff in Ut. destruct Ut as [Ud Ub].
  assert (Hin : forall h, q = Some h ->
                  ~ In h (d_handle d :: map d_handle (flatF below)
                          ++ map d_handle (flatF f))).
  { intros h E. specialize (Hh h E). cbn [flatF flatT] in Hh.
    now rewrite map_app in Hh. }
  cbn [flatF flatT rootsF rootOf]. cbn [app].
  rewrite kids_cons, Ud, kids_app. f_equal.
  rewrite (proj2 filter_none_out_of_forest below (Some (d_handle d)) q Ub).
  - cbn [app]. apply IH; auto.
    intros h E I. apply (Hin h E). right. apply in_or_app. now right.
  - intros ->. apply (Hin (d_handle d) eq_refl). now left.
  - intros h E I. apply (Hin h E). right. apply in_or_app. now left.
Qed.

(** Inside a list with distinct handles, a forest whose handles no
    record around it names as parent agrees with the list. *)
Lemma agrees_in_context :
  (forall t data pre post q,
     data = pre ++ flatT t ++ post ->
     underT q t = true ->
     NoDup (map d_handle data) ->
     (forall h, In h (map d_handle (flatT t)) ->
        Snapshot.kids (Some h) pre = [] /\ Snapshot.kids (Some h) post = []) ->
     (forall h, q = Some h -> ~ In h (map d_handle (flatT t))) ->
     agreesT data t)
  /\ (forall f data pre post q,
        data = pre ++ flatF f ++ post ->
        underF q f = true ->
        NoDup (map d_handle data) ->
        (forall h, In h (map d_handle (flatF f)) ->
           Snapshot.kids (Some h) pre = []
           /\ Snapshot.kids (Some h) post = []) ->
        (forall h, q = Some h -> ~ In h (map d_handle (flatF f))) ->
        agreesF data f).
Proof.
  apply rtree_rforest_ind.
  - intros d below IH data pre post q E U ND Out Hq.
    cbn [underT] in U. apply andb_true_iff in U. destruct U as [Ud Ub].
    cbn [flatT] in *.
    assert (Hd : ~ In (d_handle d) (map d_handle (flatF below))).
    { subst data. rewrite !map_app in ND. cbn [map app] in ND.
      apply NoDup_remove_2 in ND. intros I. apply ND.
      apply in_or_app. right. apply in_or_app. now left. }
    assert (Cd : forall h, In h (d_handle d :: map d_handle (flatF below)) ->
                           childOf (Some h) (Item.ofData d) = false).
    { intros h I. destruct (childOf (Some h) (Item.ofData d)) eqn:C; auto.
      exfalso. pose proof (childOf_inj _ _ _ Ud C) as Eq.
      apply (Hq h Eq). exact I. }
    cbn [agreesT]. split.
    + subst data. rewrite kids_app. cbn [app].
      destruct (Out (d_handle d)) as [-> Op]; [cbn; now left|].
      change (d :: flatF below ++ post) with ([d] ++ flatF below ++ post).
      rewrite !kids_app, Op, app_nil_r.
      rewrite kids_cons, (Cd (d_handle d)) by (now left). cbn [app].
      apply kids_of_forest; auto. intros h [= <-]. exact Hd.
    + apply (IH data (pre ++ [d]) post (Some (d_handle d))); auto.
      * subst data. now rewrite <- app_assoc.
      * intros h I. destruct (Out h) as [Op Oq]; [cbn; now right|].
        split; auto. rewrite kids_app, Op, kids_cons.
        rewrite (Cd h) by (now right). reflexivity.
      * intros h [= <-]. exact Hd.
  - intros. exact I.
  - intros t IHt f IHf data pre post q E U ND Out Hq.
    cbn [underF] in U. apply andb_true_iff in U. destruct U as [Ut Uf].
    cbn [flatF] in *.
    assert (NDm : NoDup (map d_handle (flatT t) ++ map d_handle (flatF f))).
    { subst data. rewrite !map_app in ND.
      apply NoDup_app_remove_l in ND.
      now apply NoDup_app_remove_r in ND. }
    assert (Hq' : forall h, q = Some h ->
                    ~ In h (map d_handle (flatT t) ++ map d_handle (flatF f))).
    { intros h Eq. specialize (Hq h Eq). now rewrite map_app in Hq. }
    assert (Out' : forall h,
              In h (map d_handle (flatT t) ++ map d_handle (flatF f)) ->
              Snapshot.kids (Some h) pre = []
              /\ Snapshot.kids (Some h) post = []).
    { intros h I. apply Out. now rewrite map_app. }
    cbn [agreesF]. split.
    + apply (IHt data pre (flatF f ++ post) q); auto.
      * subst data. now rewrite <- app_assoc.
      * intros h I. destruct (Out' h) as [Op Oq];
          [apply in_or_app; now left|].
        split; auto. rewrite kids_app, Oq, app_nil_r.
        apply (proj2 filter_none_out_of_forest f q); auto.
        -- intros <-. apply (Hq' h eq_refl). apply in_or_app. now left.
        -- intros h' [= <-]. now apply (NoDup_app_disjoint _ _ h NDm).
      * intros h Eq I. apply (Hq' h Eq). apply in_or_app. now left.
    + apply (IHf data (pre ++ flatT t) post q); auto.
      * subst data. now rewrite <- !app_assoc.
      * intros h I. destruct (Out' h) as [Op Oq];
          [apply in_or_app; now right|].
        split; auto. rewrite kids_app, Op. cbn [app].
        apply (proj1 filter_none_out_of_forest t q); auto.
        -- intros <-. apply (Hq' h eq_refl). apply in_or_app. now right.
        -- intros h' [= <-] I'.
           now apply (NoDup_app_disjoint _ _ h NDm I').
      * intros h Eq I. apply (Hq' h Eq). apply in_or_app. now right.
Qed.

Lemma height_le_length :
  (forall t, heightT t <= List.length (flatT t))
  /\ (forall f, heightF f <= List.length (flatF f)).
Proof.
  apply rtree_rforest_ind.
  - intros d below IH. cbn [heightT flatT List.length]. lia.
  - reflexivity.
  - intros t IHt f IHf. cbn [heightF flatF]. rewrite length_app. lia.
Qed.

Lemma walk_forest data fuel : forall f ph,
  agreesF data f ->
  Snapshot.kids ph data = rootsF f ->
  heightF f <= fuel ->
  Snapshot.walk fuel data ph = flatF f.
Proof.
  induction fuel as [|fuel IH]; intros f ph A K H.
  - destruct f as [|[d below] f]; [reflexivity|].
    cbn [heightF heightT] in H. lia.
  - cbn [Snapshot.walk]. rewrite K. clear K ph.
    induction f as [|[d below] f IHf]; [reflexivity|].
    cbn [agreesF agreesT] in A. destruct A as [[Kd Ab] Af].
    cbn [heightF heightT] in H.
    cbn [rootsF rootOf flat_map flatF flatT].
    rewrite (IH below (Some (d_handle d))) by (auto; lia).
    rewrite IHf by (auto; lia). reflexivity.
Qed.

(** The listing of a forest is in the order of the walk. *)
Lemma traversal_forest f :
  underF None f = true ->
  NoDup (map d_handle (flatF f)) ->
  Snapshot.traversal (flatF f) = flatF f.
Proof.
  intros U ND. unfold Snapshot.traversal.
  apply walk_forest.
  - apply (proj2 agrees_in_context f (flatF f) [] [] None); auto.
    + now rewrite app_nil_r.
    + intros h E. discriminate E.
  - apply kids_of_forest; auto. intros h E. discriminate E.
  - pose proof (proj2 height_le_length f). lia.
Qed.

Lemma attachableFrom_app l1 : forall seen l2,
  Snapshot.attachableFrom seen (l1 ++ l2) =
  Snapshot.attachableFrom seen l1
  && Snapshot.attachableFrom (seen ++ map d_handle l1) l2.
Proof.
  induction l1 as [|d l1 IH]; intros seen l2; cbn [app map].
  - now rewrite app_nil_r.
  - cbn [Snapshot.attachableFrom]. rewrite IH, <- app_assoc.
    cbn [app]. now rewrite andb_assoc.
Qed.

(** The listing of a forest is attachable record by record. *)
Lemma attachable_forest :
  (forall t q seen,
     underT q t = true -> (forall h, q = Some h -> In h seen) ->
     Snapshot.attachableFrom seen (flatT t) = true)
  /\ (forall f q seen,
        underF q f = true -> (forall h, q = Some h -> In h seen) ->
        Snapshot.attachableFrom seen (flatF f) = true).
Proof.
  apply rtree_rforest_ind.
  - intros d below IH q seen U Hq. cbn [underT] in U.
    apply andb_true_iff in U. destruct U as [Ud Ub].
    cbn [flatT Snapshot.attachableFrom]. apply andb_true_iff. split.
    + unfold childOf in Ud. cbn [Item.ofData itemParent] in Ud.
      destruct q as [h|], (truthy (d_parent d)) as [p|]; try discriminate.
      * apply String.eqb_eq in Ud. subst p. apply inb_In. now apply Hq.
      * exact Ud.
    + apply (IH (Some (d_handle d))); auto.
      intros h [= <-]. apply in_or_app. right. now left.
  - reflexivity.
  - intros t IHt f IHf q seen U Hq. cbn [underF] in U.
    apply andb_true_iff in U. destruct U as [Ut Uf].
    cbn [flatF]. rewrite attachableFrom_app. apply andb_true_iff. split.
    + now apply (IHt q).
    + apply (IHf q); auto. intros h E. apply in_or_app. left. now apply Hq.
Qed.

Lemma wellListed_forest f :
  underF None f = true ->
  forallb (fun d => isHandle (d_handle d)) (flatF f) = true ->
  Snapshot.distinct (map d_handle (flatF f)) = true ->
  Snapshot.wellListed (flatF f) = true.
Proof.
  intros U H D. unfold Snapshot.wellListed. rewrite H, D. cbn [andb].
  apply (proj2 attachable_forest f None); auto. intros h E. discriminate E.
Qed.

Lemma pack_unpack_nil data t0 : Tree.pack (Tree.unpack data t0) = [].
Proof.
  unfold Tree.pack. destruct (unpack_rest data t0) as (-> & _). reflexivity.
Qed.

(** C1, as stated, fails: [pack] reads the node layer, which [unpack]
    has just cleared, and returns no record at all. *)
Lemma pack_unpack_loses_records :
  Documented.wellFormedList [Sample.novelRoot] = true
  /\ Tree.pack (Tree.unpack [Sample.novelRoot] Tree.init) = []
  /\ Tree.pack (Tree.unpack [Sample.novelRoot] Tree.init)
     <> [Sample.novelRoot].
Proof. repeat split. discriminate. Qed.

(** C1, amended: [pack] directly after [unpack] returns the empty
    list.  With [buildModel] in between, and for records with
    well-formed, distinct handles of which every one without parent is
    a ROOT and every other one stands after its parent, [pack] returns
    the records in the order of a walk through the hierarchy, each
    record followed by what is below it; that is the list itself,
    field for field, when the list is in that order.  The listing of a
    forest in document order, with well-formed and distinct handles, is
    such a list. *)
Theorem pack_after_build (data : list ItemData) (t0 : NWTree) :
  Tree.pack (Tree.unpack data t0) = []
  /\ (Snapshot.wellListed data = true ->
      Tree.pack (Build.buildModel (Tree.unpack data t0))
      = Snapshot.traversal data
      /\ (Snapshot.traversal data = data ->
          Tree.pack (Build.buildModel (Tree.unpack data t0)) = data))
  /\ (forall f,
        data = flatF f ->
        underF None f = true ->
        forallb (fun d => isHandle (d_handle d)) data = true ->
        Snapshot.distinct (map d_handle data) = true ->
        Tree.pack (Build.buildModel (Tree.unpack data t0)) = data).
Proof.
  split; [apply pack_unpack_nil | split].
  - intros WL. split.
    + now apply pack_built.
    + intros E. rewrite <- E at 2. now apply pack_built.
  - intros f E U H D. subst data.
    rewrite pack_built by now apply wellListed_forest.
    apply traversal_forest; auto. now apply distinct_NoDup.
Qed.

Lemma pack_after_build_witness :
  Snapshot.wellListed Sample.inOrder = true
  /\ Snapshot.traversal Sample.inOrder = Sample.inOrder
  /\ Sample.inOrder = flatF Sample.library
  /\ underF None Sample.library = true
  /\ Tree.pack (Tree.unpack Sample.inOrder Tree.init) = []
  /\ Tree.pack (Build.buildModel (Tree.unpack Sample.inOrder Tree.init))
     = Snapshot.traversal Sample.inOrder
  /\ Tree.pack (Build.buildModel (Tree.unpack Sample.inOrder Tree.init))
     = Sample.inOrder.
Proof.
  assert (WL : Snapshot.wellListed Sample.inOrder = true)
    by (vm_compute; reflexivity).
  assert (E : Snapshot.traversal Sample.inOrder = Sample.inOrder)
    by (vm_compute; reflexivity).
  destruct (pack_after_build Sample.inOrder Tree.init) as (P0 & P1 & P2).
  destruct (P1 WL) as [T _].
  split; [exact WL | split; [exact E | split; [reflexivity | split;
    [reflexivity | split; [exact P0 | split; [exact T|]]]]]].
  apply (P2 Sample.library); reflexivity.
Defined.

(** ** The path of an item *)

Lemma climb_of_chain fuel : forall t asName it acc above,
  Path.chain t it above -> List.length above < fuel ->
  exists path, Path.climb fuel t asName it acc = Ok path
               /\ (asName = false -> path = acc ++ above).
Proof.
  induction fuel as [|fuel IH]; intros t asName it acc above C L; [lia|].
  cbn [Path.climb]. destruct above as [|p above]; cbn [Path.chain] in C.
  - destruct C as [C|(p & C & M)]; rewrite C.
    + eexists. split; [reflexivity|]. intros _. now rewrite app_nil_r.
    + rewrite M. eexists. split; [reflexivity|].
      intros _. now rewrite app_nil_r.
  - destruct C as (P & it' & G & C). rewrite P, G.
    cbn [List.length] in L.
    destruct (IH t asName it' (acc ++ [Path.entry asName p it']) above C)
      as (path & E & Hp); [lia|].
    exists path. split; auto. intros ->. rewrite Hp by reflexivity.
    cbn [Path.entry]. now rewrite <- app_assoc.
Qed.

Lemma chain_of_climb fuel : forall t asName it acc path,
  Path.climb fuel t asName it acc = Ok path ->
  exists above, Path.chain t it above /\ List.length above < fuel.
Proof.
  induction fuel as [|fuel IH]; intros t asName it acc path E;
    [discriminate|].
  cbn [Path.climb] in E.
  destruct (itemParent it) as [p|] eqn:P.
  - destruct (Tree.getitem t (Some p)) as [it'|] eqn:G.
    + destruct (IH _ _ _ _ _ E) as (above & C & L).
      exists (p :: above). cbn [Path.chain List.length].
      split; [|lia]. split; auto. exists it'. auto.
    + exists []. cbn. split; [|lia]. right. exists p. auto.
  - exists []. cbn. split; [|lia]. now left.
Qed.

Lemma climb_raises fuel : forall t asName it acc e,
  Path.climb fuel t asName it acc = Raise e -> e = RecursionError.
Proof.
  induction fuel as [|fuel IH]; intros t asName it acc e E;
    cbn [Path.climb] in E.
  - now injection E as <-.
  - destruct (itemParent it) as [p|]; [|discriminate].
    destruct (Tree.getitem t (Some p)) as [it'|]; [|discriminate].
    eapply IH; eauto.
Qed.

(** X1: [getItemPath] returns the empty list for an unknown handle.
    For a known one it returns, within the bound, the handle followed
    by the handles above it: each the parent of the one before, each
    known, up to an item without parent or with an unknown parent; the
    list has at most MAX_DEPTH entries. *)
Theorem getItemPath_chain (t : NWTree) (tHandle : string) :
  (Tree.getitem t (Some tHandle) = None ->
   forall asName, Path.getItemPath t tHandle asName = Ok [])
  /\ (forall tItem path,
        Tree.getitem t (Some tHandle) = Some tItem ->
        (Path.getItemPath t tHandle false = Ok path <->
         exists above,
           path = tHandle :: above
           /\ Path.chain t tItem above
           /\ List.length path <= MAX_DEPTH)).
Proof.
  unfold Path.getItemPath, Path.getItemPath_within. split.
  - now intros ->.
  - intros tItem path ->. cbn [Path.entry]. split.
    + intros E.
      destruct (chain_of_climb _ _ _ _ _ _ E) as (above & C & L).
      destruct (climb_of_chain MAX_DEPTH t false tItem [tHandle] above C L)
        as (path' & E' & Hp).
      exists above. rewrite E in E'. injection E' as <-.
      rewrite (Hp eq_refl). cbn [app List.length]. repeat split; auto.
    + intros (above & -> & C & L). cbn [List.length] in L.
      destruct (climb_of_chain MAX_DEPTH t false tItem [tHandle] above C)
        as (path' & E' & Hp); [lia|].
      rewrite E'. now rewrite (Hp eq_refl).
Qed.

Lemma getItemPath_chain_witness :
  Tree.getitem Sample.shelf (Some Sample.h0) = None
  /\ Path.getItemPath Sample.shelf Sample.h0 true = Ok []
  /\ Path.getItemPath Sample.shelf Sample.h4 false
     = Ok [Sample.h4; Sample.h3; Sample.h1]
  /\ Path.getItemPath Sample.shelf Sample.h2 false = Ok [Sample.h2].
Proof.
  destruct (getItemPath_chain Sample.shelf Sample.h0) as [U _].
  destruct (getItemPath_chain Sample.shelf Sample.h4) as [_ K4].
  destruct (getItemPath_chain Sample.shelf Sample.h2) as [_ K2].
  split; [reflexivity | split; [apply U; reflexivity | split]].
  - eapply K4; [reflexivity|].
    exists [Sample.h3; Sample.h1]. split; [reflexivity | split].
    + cbn [Path.chain]. split; [reflexivity|]. eexists. split; [reflexivity|].
      split; [reflexivity|]. eexists. split; [reflexivity|].
      left. reflexivity.
    + unfold MAX_DEPTH. cbn [List.length]. lia.
  - eapply K2; [reflexivity|].
    exists []. split; [reflexivity | split].
    + cbn [Path.chain]. right. eexists. split; reflexivity.
    + unfold MAX_DEPTH. cbn [List.length]. lia.
Defined.

Lemma climb_names fuel : forall t it acc,
  Path.climb fuel t true it (map (Path.nameAt t) acc) =
  Path.mapResult (map (Path.nameAt t)) (Path.climb fuel t false it acc).
Proof.
  induction fuel as [|fuel IH]; intros t it acc; cbn [Path.climb].
  - reflexivity.
  - destruct (itemParent it) as [p|]; [|reflexivity].
    destruct (Tree.getitem t (Some p)) as [it'|] eqn:G; [|reflexivity].
    rewrite <- IH. f_equal. rewrite map_app. cbn [map Path.entry].
    unfold Path.nameAt at 3. now rewrite G.
Qed.

(** X2: with [asName] the path is the path of handles with every
    handle replaced by the name of its item, and it is refused in the
    same cases. *)
Theorem getItemPath_names (t : NWTree) (tHandle : string) :
  Path.getItemPath t tHandle true =
  Path.mapResult (map (Path.nameAt t)) (Path.getItemPath t tHandle false).
Proof.
  unfold Path.getItemPath, Path.getItemPath_within.
  destruct (Tree.getitem t (Some tHandle)) as [tItem|] eqn:G; [|reflexivity].
  rewrite <- climb_names. cbn [map Path.entry].
  unfold Path.nameAt. now rewrite G.
Qed.

Lemma findRootItem_of_chain fuel : forall t it above,
  Path.chain t it above -> List.length above < fuel ->
  Query.findRootItem fuel t it =
  Ok (match itemParent (Path.top t it above) with
      | None => Some (Path.top t it above)
      | Some _ => None
      end).
Proof.
  induction fuel as [|fuel IH]; intros t it above C L; [lia|].
  cbn [Query.findRootItem].
  destruct above as [|p above]; cbn [Path.chain Path.top] in *.
  - destruct C as [C|(p & C & M)]; rewrite C; [reflexivity|].
    now rewrite M.
  - destruct C as (P & it' & G & C). rewrite P, G.
    cbn [List.length] in L. apply IH; auto. lia.
Qed.

Lemma chain_of_findRootItem fuel : forall t it r,
  Query.findRootItem fuel t it = Ok r ->
  exists above, Path.chain t it above /\ List.length above < fuel.
Proof.
  induction fuel as [|fuel IH]; intros t it r E; [discriminate|].
  cbn [Query.findRootItem] in E.
  destruct (itemParent it) as [p|] eqn:P.
  - destruct (Tree.getitem t (Some p)) as [it'|] eqn:G.
    + destruct (IH _ _ _ E) as (above & C & L).
      exists (p :: above). cbn [Path.chain List.length].
      split; [|lia]. split; auto. exists it'. auto.
    + exists []. cbn. split; [|lia]. right. exists p. auto.
  - exists []. cbn. split; [|lia]. now left.
Qed.

Lemma findRootItem_raises fuel : forall t it e,
  Query.findRootItem fuel t it = Raise e -> e = RecursionError.
Proof.
  induction fuel as [|fuel IH]; intros t it e E;
    cbn [Query.findRootItem] in E.
  - now injection E as <-.
  - destruct (itemParent it) as [p|]; [|discriminate].
    destruct (Tree.getitem t (Some p)) as [it'|]; [|discriminate].
    eapply IH; eauto.
Qed.

Lemma last_cons {A} (l : list A) : forall a d, last (a :: l) d = last l a.
Proof.
  induction l as [|b l IH]; intros a d; [reflexivity|].
  change (last (a :: b :: l) d) with (last (b :: l) d).
  now rewrite !IH.
Qed.

Lemma chain_top above : forall t h it,
  Path.chain t it above ->
  Tree.getitem t (Some h) = Some it ->
  Tree.getitem t (Some (last above h)) = Some (Path.top t it above)
  /\ (itemParent (Path.top t it above) = None
      \/ exists p, itemParent (Path.top t it above) = Some p
                   /\ Tree.getitem t (Some p) = None).
Proof.
  induction above as [|p above IH]; intros t h it C G;
    cbn [Path.chain Path.top] in *.
  - split; auto.
  - destruct C as (P & it' & G' & C). rewrite G', last_cons.
    now apply IH.
Qed.

(** X3: for a known handle, [updateItemData] and [getItemPath] give up
    with [RecursionError] in the same cases.  Otherwise the path ends
    at an item without parent, and that is the item whose handle and
    class [updateItemData] caches, or it ends at an item with an
    unknown parent, and then [updateItemData] fails while the path so
    far is returned. *)
Theorem getItemPath_ends_at_root (t : NWTree) (tHandle : string)
    (tItem : NWItem) :
  Tree.getitem t (Some tHandle) = Some tItem ->
  (Query.updateItemData t tHandle = Raise RecursionError <->
   Path.getItemPath t tHandle false = Raise RecursionError)
  /\ forall path,
       Path.getItemPath t tHandle false = Ok path ->
       exists a,
         Tree.getitem t (Some (last path tHandle)) = Some a
         /\ ((itemParent a = None
              /\ Query.updateItemData t tHandle =
                 Ok (true,
                     Tree.set_items t
                       (Dict.set tHandle (Chain.cached a tItem) (_items t))))
             \/ (exists p,
                   itemParent a = Some p
                   /\ Tree.getitem t (Some p) = None
                   /\ Query.updateItemData t tHandle = Ok (false, t))).
Proof.
  intros G.
  unfold Query.updateItemData, Query.updateItemData_within,
    Path.getItemPath, Path.getItemPath_within.
  rewrite G. cbn [Path.entry]. split; [split|].
  - intros E.
    destruct (Path.climb MAX_DEPTH t false tItem [tHandle]) as [path|e] eqn:Ec.
    + destruct (chain_of_climb _ _ _ _ _ _ Ec) as (above & C & L).
      rewrite (findRootItem_of_chain _ _ _ _ C L) in E. cbn [bind] in E.
      destruct (itemParent (Path.top t tItem above)); discriminate.
    + f_equal. eapply climb_raises; eauto.
  - intros E.
    destruct (Query.findRootItem MAX_DEPTH t tItem) as [r|e] eqn:Ef.
    + destruct (chain_of_findRootItem _ _ _ _ Ef) as (above & C & L).
      destruct (climb_of_chain MAX_DEPTH t false tItem [tHandle] above C L)
        as (path & Ec & _). congruence.
    + cbn [bind]. f_equal. eapply findRootItem_raises; eauto.
  - intros path Ec.
    destruct (chain_of_climb _ _ _ _ _ _ Ec) as (above & C & L).
    destruct (climb_of_chain MAX_DEPTH t false tItem [tHandle] above C L)
      as (path' & Ec' & Hp).
    rewrite Ec in Ec'. injection Ec' as <-. rewrite (Hp eq_refl).
    cbn [app]. rewrite last_cons.
    destruct (chain_top above t tHandle tItem C G) as [Gt Ht].
    exists (Path.top t tItem above). split; auto.
    rewrite (findRootItem_of_chain _ _ _ _ C L). cbn [bind].
    destruct Ht as [Ht|(p & Ht & M)]; rewrite Ht.
    + left. split; reflexivity.
    + right. exists p. repeat split; auto.
Qed.

Lemma getItemPath_ends_at_root_witness :
  Tree.getitem Sample.shelf (Some Sample.h4) <> None
  /\ Path.getItemPath Sample.shelf Sample.h4 false
     = Ok [Sample.h4; Sample.h3; Sample.h1]
  /\ exists a t',
       Tree.getitem Sample.shelf (Some Sample.h1) = Some a
       /\ Query.updateItemData Sample.shelf Sample.h4 = Ok (true, t')
       /\ option_map itemRoot (Dict.get Sample.h4 (_items t'))
          = Some (Some (itemHandle a)).
Proof.
  assert (P : Path.getItemPath Sample.shelf Sample.h4 false
              = Ok [Sample.h4; Sample.h3; Sample.h1])
    by (vm_compute; reflexivity).
  split; [discriminate | split; [exact P|]].
  destruct (getItemPath_ends_at_root Sample.shelf Sample.h4 _ eq_refl)
    as [_ K].
  destruct (K _ P) as (a & Ga & [[Hn U]|(p & Hp & M & U)]).
  - exists a. eexists. split; [exact Ga | split; [exact U|]].
    cbn [Tree.set_items _items]. rewrite get_set_same. reflexivity.
  - exfalso. vm_compute in Ga. injection Ga as <-. discriminate Hp.
Defined.

(** ** Word counts *)

Lemma fold_addWords l : forall a b,
  fold_left Counts.addWords l (a, b) =
  ((a + Counts.wordsOf DOCUMENT l)%N, (b + Counts.wordsOf NOTE l)%N).
Proof.
  induction l as [|it l IH]; intros a b; cbn [fold_left Counts.wordsOf fold_right].
  - now rewrite !N.add_0_r.
  - unfold Counts.addWords at 2.
    fold (Counts.wordsOf DOCUMENT l). fold (Counts.wordsOf NOTE l).
    destruct (itemLayout it); rewrite IH; f_equal; lia.
Qed.

Lemma sumWords_values t :
  Counts.sumWords t =
  (Counts.wordsOf DOCUMENT (Dict.values (_items t)),
   Counts.wordsOf NOTE (Dict.values (_items t))).
Proof. unfold Counts.sumWords. now rewrite fold_addWords. Qed.

(** X4: after [unpack] of records whose accepted handles are distinct,
    [sumWords] is the pair of the words of the accepted records of
    layout DOCUMENT and of those of layout NOTE. *)
Theorem sumWords_unpack (data : list ItemData) (t : NWTree) :
  NoDup (map itemHandle (Snapshot.accepted data)) ->
  Counts.sumWords (Tree.unpack data t) =
  (Counts.wordsOf DOCUMENT (Snapshot.accepted data),
   Counts.wordsOf NOTE (Snapshot.accepted data)).
Proof.
  intros ND.
  now rewrite sumWords_values, unpack_items_distinct, values_of_items.
Qed.

Lemma sumWords_unpack_witness :
  NoDup (map itemHandle (Snapshot.accepted Scenario.counted))
  /\ Counts.sumWords (Tree.unpack Scenario.counted Tree.init) = (150%N, 30%N).
Proof.
  assert (ND : NoDup (map itemHandle (Snapshot.accepted Scenario.counted))).
  { simpl. repeat constructor; simpl; intuition discriminate. }
  split; [exact ND|].
  rewrite (sumWords_unpack Scenario.counted Tree.init ND). reflexivity.
Defined.

(** ** What the builder leaves alone *)

Import Frame.

Lemma sameOrCleared_trans a b c :
  sameOrCleared a b -> sameOrCleared b c -> sameOrCleared a c.
Proof.
  unfold sameOrCleared. intros [->| ->] [->| ->]; auto.
Qed.

Lemma parentsCleared_refl d : parentsCleared d d.
Proof.
  induction d as [|e d IH]; constructor; auto.
  split; auto. now left.
Qed.

Lemma parentsCleared_trans d1 : forall d2 d3,
  parentsCleared d1 d2 -> parentsCleared d2 d3 -> parentsCleared d1 d3.
Proof.
  induction d1 as [|e1 d1 IH]; intros d2 d3 H12 H23.
  - inversion H12; subst. inversion H23; subst. constructor.
  - inversion H12 as [|a b l l' Hab Hl]; subst.
    inversion H23 as [|a' c l2 l3 Hbc Hl']; subst.
    destruct Hab as [K1 S1], Hbc as [K2 S2]. constructor.
    + split; [congruence|]. eapply sameOrCleared_trans; eauto.
    + eapply IH; eauto.
Qed.

Lemma parentsCleared_set k it d :
  Dict.get k d = Some it ->
  parentsCleared d (Dict.set k (Item.setParent None it) d).
Proof.
  induction d as [|[k0 v0] d IH]; simpl; [discriminate|].
  destruct (String.eqb k k0) eqn:E.
  - intros [= ->]. constructor; [|apply parentsCleared_refl].
    split; auto. now right.
  - intros G. constructor; [|now apply IH]. split; auto. now left.
Qed.

Lemma clearParent_parentsCleared t x :
  parentsCleared (_items t) (_items (Build.clearParent t x)).
Proof.
  unfold Build.clearParent.
  destruct (Dict.get x (_items t)) as [it|] eqn:G.
  - now apply parentsCleared_set.
  - apply parentsCleared_refl.
Qed.

Lemma set_items_rest t d :
  _model (Tree.set_items t d) = _model t
  /\ _nodes (Tree.set_items t d) = _nodes t
  /\ _trash (Tree.set_items t d) = _trash t
  /\ _changed (Tree.set_items t d) = _changed t.
Proof. repeat split. Qed.

Lemma clearParent_flags t x :
  _trash (Build.clearParent t x) = _trash t
  /\ _changed (Build.clearParent t x) = _changed t.
Proof.
  unfold Build.clearParent. destruct (Dict.get x (_items t)); auto.
Qed.

Lemma step_parentsCleared items acc x :
  parentsCleared (_items (fst acc))
                 (_items (fst (Build.buildTree_step items acc x)))
  /\ _trash (fst (Build.buildTree_step items acc x)) = _trash (fst acc)
  /\ _changed (fst (Build.buildTree_step items acc x)) = _changed (fst acc).
Proof.
  destruct acc as [t remains]. unfold Build.buildTree_step. cbn [fst].
  pose proof (parentsCleared_refl (_items t)) as R.
  destruct (Dict.get x (_items t)) as [itx|]; auto.
  destruct (truthy (itemParent itx)) as [p|].
  - destruct (Dict.get p (_nodes t)); auto.
    destruct (inb p items); auto. cbn [fst]. split.
    + apply clearParent_parentsCleared.
    + apply clearParent_flags.
  - destruct (Item.isRootType itx); auto.
Qed.

Lemma pass_parentsCleared items l : forall acc,
  parentsCleared (_items (fst acc))
    (_items (fst (fold_left (Build.buildTree_step items) l acc)))
  /\ _trash (fst (fold_left (Build.buildTree_step items) l acc))
     = _trash (fst acc)
  /\ _changed (fst (fold_left (Build.buildTree_step items) l acc))
     = _changed (fst acc).
Proof.
  induction l as [|x l IH]; intros acc; cbn [fold_left].
  - split; auto. apply parentsCleared_refl.
  - destruct (IH (Build.buildTree_step items acc x)) as (P & T & C).
    destruct (step_parentsCleared items acc x) as (P' & T' & C').
    split; [|split]; try congruence.
    eapply parentsCleared_trans; eauto.
Qed.

Lemma clearAll_parentsCleared later : forall t,
  parentsCleared (_items t) (_items (fold_left Build.clearParent later t))
  /\ _trash (fold_left Build.clearParent later t) = _trash t
  /\ _changed (fold_left Build.clearParent later t) = _changed t.
Proof.
  induction later as [|x later IH]; intros t; cbn [fold_left].
  - split; auto. apply parentsCleared_refl.
  - destruct (IH (Build.clearParent t x)) as (P & T & C).
    destruct (clearParent_flags t x) as [T' C'].
    split; [|split]; try congruence.
    eapply parentsCleared_trans; [apply clearParent_parentsCleared | exact P].
Qed.

Lemma buildLoop_parentsCleared n : forall t later,
  parentsCleared (_items t) (_items (Build.buildLoop n t later))
  /\ _trash (Build.buildLoop n t later) = _trash t
  /\ _changed (Build.buildLoop n t later) = _changed t.
Proof.
  induction n as [|n IH]; intros t later.
  - apply clearAll_parentsCleared.
  - rewrite buildLoop_S.
    destruct (IH (fst (Build._buildTree t later))
                 (snd (Build._buildTree t later))) as (P & T & C).
    destruct (pass_parentsCleared later later (t, [])) as (P' & T' & C').
    unfold Build._buildTree in *. cbn [fst] in *.
    split; [|split]; try congruence.
    eapply parentsCleared_trans; eauto.
Qed.

Lemma parentsCleared_keys d : forall d',
  parentsCleared d d' -> Dict.keys d' = Dict.keys d.
Proof.
  induction d as [|e d IH]; intros d' H.
  - now inversion H; subst.
  - inversion H as [|a b l l' Hab Hl]; subst.
    cbn [Dict.keys map]. destruct Hab as [-> _]. f_equal. now apply IH.
Qed.

Lemma parentsCleared_get d : forall d' h it,
  parentsCleared d d' -> Dict.get h d = Some it ->
  exists it', Dict.get h d' = Some it' /\ sameOrCleared it it'.
Proof.
  induction d as [|[k v] d IH]; intros d' h it H G; [discriminate|].
  inversion H as [|e e' l l' KS T]; subst. destruct KS as [K S].
  destruct e' as [k' v']. cbn [fst snd] in *. subst k'. cbn [Dict.get] in *.
  destruct (String.eqb h k).
  - injection G as <-. eauto.
  - eapply IH; eauto.
Qed.

Lemma step_untouched d0 items pre x rest t remains :
  items = pre ++ x :: rest ->
  NoDup items ->
  passInv t (x :: rest ++ remains) ->
  (forall h, Dict.get h (_items t) = Dict.get h d0
             \/ (Dict.get h (_nodes t) = None /\ ~ In h remains
                 /\ (In h items -> In h pre))) ->
  forall h,
    Dict.get h (_items (fst (Build.buildTree_step items (t, remains) x)))
    = Dict.get h d0
    \/ (Dict.get h (_nodes (fst (Build.buildTree_step items (t, remains) x)))
        = None
        /\ ~ In h (snd (Build.buildTree_step items (t, remains) x))
        /\ (In h items -> In h (pre ++ [x]))).
Proof.
  intros E ND (W & St & U & NDp) P h.
  destruct (pending_item _ _ x U (or_introl eq_refl)) as (Hn & itx & Hx).
  assert (Hpre : ~ In x pre).
  { subst items. apply NoDup_remove_2 in ND. rewrite in_app_iff in ND. tauto. }
  assert (Hitems : In x items).
  { subst items. apply in_or_app. right. now left. }
  assert (Hrem : ~ In x remains).
  { apply NoDup_cons_iff in NDp. rewrite in_app_iff in NDp. tauto. }
  assert (Hne : (Dict.get h (_nodes t) = None /\ ~ In h remains
                 /\ (In h items -> In h pre)) -> h <> x).
  { intros (_ & _ & H) ->. auto. }
  destruct (step_outcome items t remains x itx W Hx)
    as [pid Hp Hc | p T Np I | p T Np I | T R]; cbn [fst snd].
  - rewrite attach_items, attach_nodes.
    destruct (P h) as [H|H]; [now left|]. right.
    pose proof (Hne H) as N. destruct H as (H1 & H2 & H3).
    rewrite get_set_other by assumption.
    repeat split; auto. intros I. apply in_or_app. auto.
  - destruct (P h) as [H|H]; [now left|]. right.
    pose proof (Hne H) as N. destruct H as (H1 & H2 & H3).
    repeat split; auto.
    + rewrite in_app_iff. simpl. intuition congruence.
    + intros I'. apply in_or_app. auto.
  - pose proof (clearParent_sameLayer t x Hn) as SL.
    destruct SL as (_ & -> & _ & _). rewrite clearParent_get.
    destruct (String.eqb h x) eqn:Eh.
    + apply String.eqb_eq in Eh. subst h. right.
      repeat split; auto. intros _. apply in_or_app. right. now left.
    + destruct (P h) as [H|(H1 & H2 & H3)]; [now left|]. right.
      repeat split; auto. intros I'. apply in_or_app. auto.
  - destruct (P h) as [H|(H1 & H2 & H3)]; [now left|]. right.
    repeat split; auto. intros I'. apply in_or_app. auto.
Qed.

Lemma pass_untouched d0 items t :
  passInv t items -> untouched d0 t items ->
  untouched d0 (fst (Build._buildTree t items))
               (snd (Build._buildTree t items)).
Proof.
  intros I Un. unfold Build._buildTree.
  pose proof I as (_ & _ & _ & ND).
  destruct (pass_fold items
    (fun pre t' remains =>
       forall h, Dict.get h (_items t') = Dict.get h d0
                 \/ (Dict.get h (_nodes t') = None /\ ~ In h remains
                     /\ (In h items -> In h pre))))
    with (rest := items) (pre := @nil string) (t := t) (remains := @nil string)
    as (_ & P); auto.
  - intros pre x rest t' remains E ND' I' P.
    now apply (step_untouched d0 items pre x rest).
  - now rewrite app_nil_r.
  - intros h. destruct (Un h) as [H|[H1 H2]]; [now left|]. right. auto.
  - intros h. destruct (P h) as [H|(H1 & H2 & _)]; [now left|]. right. auto.
Qed.

Lemma clearAll_untouched d0 later : forall t,
  passInv t later -> untouched d0 t later ->
  untouched d0 (fold_left Build.clearParent later t) [].
Proof.
  induction later as [|x later IH]; intros t I Un; cbn [fold_left]; auto.
  pose proof I as (W & St & U & ND).
  destruct (pending_item _ _ x U (or_introl eq_refl)) as (Hn & itx & Hx).
  pose proof (clearParent_sameLayer t x Hn) as SL.
  apply NoDup_cons_iff in ND. destruct ND as [Hnotin ND].
  apply IH.
  - split; [|split; [|split]]; auto.
    + eapply sameLayer_wellFormed; eauto.
    + intros h it. rewrite clearParent_get.
      destruct SL as (_ & -> & _ & _).
      destruct (String.eqb h x) eqn:E.
      * rewrite Hx. simpl. intros [= <-]. auto.
      * intros G. destruct (St h it G) as [H|[[->|H]|H]]; auto.
        rewrite String.eqb_refl in E. discriminate.
    + intros h I'. destruct SL as (_ & -> & -> & _). apply U. now right.
  - intros h. destruct SL as (_ & -> & _ & _). rewrite clearParent_get.
    destruct (String.eqb h x) eqn:E.
    + apply String.eqb_eq in E. subst h. right. auto.
    + destruct (Un h) as [H|[H1 H2]]; [now left|]. right.
      split; auto. intros I'. apply H2. now right.
Qed.

Lemma buildLoop_untouched d0 n : forall t later,
  passInv t later -> untouched d0 t later ->
  untouched d0 (Build.buildLoop n t later) [].
Proof.
  induction n as [|n IH]; intros t later I Un.
  - now apply clearAll_untouched.
  - rewrite buildLoop_S. apply IH.
    + now apply pass_passInv.
    + now apply pass_untouched.
Qed.

(** X5: [buildModel] keeps every item under its handle, in the same
    order, and changes an item in one way only, by clearing its parent;
    it leaves the trash handle and the change flag alone.  After
    [unpack], the items that it gives a node are not changed at all. *)
Theorem buildModel_only_clears (t : NWTree) (data : list ItemData)
    (t0 : NWTree) :
  parentsCleared (_items t) (_items (Build.buildModel t))
  /\ Tree.handles (Build.buildModel t) = Tree.handles t
  /\ _trash (Build.buildModel t) = _trash t
  /\ _changed (Build.buildModel t) = _changed t
  /\ forall h,
       Dict.get h (_nodes (Build.buildModel (Tree.unpack data t0))) <> None ->
       Dict.get h (_items (Build.buildModel (Tree.unpack data t0)))
       = Dict.get h (_items (Tree.unpack data t0)).
Proof.
  destruct (buildLoop_parentsCleared 999 t (Dict.keys (_items t)))
    as (P & T & C).
  split; [exact P | split; [|split; [exact T | split; [exact C|]]]].
  - unfold Tree.handles. now apply parentsCleared_keys.
  - intros h Hn.
    pose proof (unpack_loaded data t0) as L.
    pose proof (buildLoop_untouched (_items (Tree.unpack data t0)) 999
                  (Tree.unpack data t0) _ (loaded_passInv _ L)) as Un.
    destruct (Un (fun h => or_introl eq_refl) h) as [H|[H _]]; auto.
    unfold Build.buildModel in Hn. congruence.
Qed.

(** X6: after [unpack] and [buildModel], every item has a node or no
    parent to speak of; the dictionary of nodes and the model name the
    same nodes; and the node of an item with a parent is a child of the
    node of that parent, the node of an item without one a child of the
    synthetic root, the item being of the root type. *)
Theorem buildModel_hangs_below_parent (data : list ItemData) (t0 : NWTree) :
  let t := Build.buildModel (Tree.unpack data t0) in
  (forall h it,
     Dict.get h (_items t) = Some it ->
     Dict.get h (_nodes t) <> None \/ truthy (itemParent it) = None)
  /\ (forall h c,
        Dict.get h (_nodes t) = Some c <-> handleOf (_model t) c = Some h)
  /\ (forall h c,
        Dict.get h (_nodes t) = Some c ->
        exists it,
          Dict.get h (_items t) = Some it
          /\ match truthy (itemParent it) with
             | Some p =>
                 exists i, Dict.get p (_nodes t) = Some i
                           /\ In c (Model.children (_model t) i)
             | None =>
                 Item.isRootType it = true
                 /\ In c (Model.children (_model t) Model.root)
             end).
Proof.
  intros t.
  destruct (buildModel_passInv _ (unpack_loaded data t0)) as (W & St & _ & _).
  fold t in W, St. split; [|split].
  - intros h it G. destruct (St h it G) as [H|[[]|H]]; auto.
    left. now apply get_In_keys.
  - intros h c. split; [apply (wf_dict W) | apply (wf_node W)].
  - intros h c G. apply (wf_dict W) in G.
    destruct (wf_cover W c) as [i Hi]; [congruence|].
    destruct (wf_child W _ _ Hi) as (hc & itc & H1 & H2 & H3).
    assert (hc = h) by congruence. subst hc. exists itc. split; auto.
    destruct (handleOf (_model t) i) as [p|] eqn:Ep.
    + apply childOf_Some in H3. rewrite H3. exists i. split; auto.
      now apply (wf_node W).
    + unfold childOf in H3.
      destruct (truthy (itemParent itc)); [discriminate|]. split; auto.
      apply (wf_item W) in Ep; [|eapply children_lt; eauto]. now subst i.
Qed.

(** ** The nodes below the synthetic root *)

Lemma childOf_None_truthy it p :
  truthy (itemParent it) = Some p -> childOf None it = false.
Proof. unfold childOf. now intros ->. Qed.

Lemma step_top t0 items pre x rest t remains :
  items = pre ++ x :: rest ->
  NoDup items ->
  passInv t (x :: rest ++ remains) ->
  (forall c, In c pre -> belongsTo t None c = Roots.topLevel t0 c)
  /\ (forall c, ~ In c pre -> Dict.get c (_items t) = Dict.get c (_items t0))
  /\ (forall h, In h remains -> namesParent t h) ->
  (forall c, In c (pre ++ [x]) ->
     belongsTo (fst (Build.buildTree_step items (t, remains) x)) None c
     = Roots.topLevel t0 c)
  /\ (forall c, ~ In c (pre ++ [x]) ->
        Dict.get c (_items (fst (Build.buildTree_step items (t, remains) x)))
        = Dict.get c (_items t0))
  /\ (forall h, In h (snd (Build.buildTree_step items (t, remains) x)) ->
        namesParent (fst (Build.buildTree_step items (t, remains) x)) h).
Proof.
  intros E ND (W & St & U & NDp) (B & Un & NP).
  destruct (pending_item _ _ x U (or_introl eq_refl)) as (Hn & itx & Hx).
  assert (Hpre : ~ In x pre).
  { subst items. apply NoDup_remove_2 in ND. rewrite in_app_iff in ND. tauto. }
  assert (Hrem : ~ In x remains).
  { apply NoDup_cons_iff in NDp. rewrite in_app_iff in NDp. tauto. }
  assert (Htop : Roots.topLevel t0 x = childOf None itx).
  { unfold Roots.topLevel. now rewrite <- (Un x Hpre), Hx. }
  split; [|split].
  - intros c Hc. apply in_app_or in Hc. destruct Hc as [Hc|[<-|[]]].
    + rewrite <- (B c Hc).
      assert (c <> x) by congruence.
      destruct (step_outcome items t remains x itx W Hx)
        as [pid Hp Hcd | p T Np I | p T Np I | T R]; cbn [fst]; auto.
      * now apply belongsTo_attach_other.
      * apply sameLayer_belongsTo. now apply clearParent_sameLayer.
    + rewrite Htop.
      destruct (step_outcome items t remains x itx W Hx)
        as [pid Hp Hcd | p T Np I | p T Np I | T R]; cbn [fst].
      * now apply belongsTo_attach_same.
      * rewrite belongsTo_unattached by assumption.
        symmetry. eapply childOf_None_truthy; eauto.
      * rewrite (sameLayer_belongsTo _ _ _ x (clearParent_sameLayer t x Hn)).
        rewrite belongsTo_unattached by assumption.
        symmetry. eapply childOf_None_truthy; eauto.
      * rewrite belongsTo_unattached by assumption.
        unfold childOf. now rewrite T, R.
  - intros c Hc. rewrite step_items_other.
    + apply Un. intros I. apply Hc. apply in_or_app. auto.
    + intros ->. apply Hc. apply in_or_app. right. now left.
  - destruct (step_outcome items t remains x itx W Hx)
      as [pid Hp Hcd | p T Np I | p T Np I | T R]; cbn [fst snd];
      intros h Hh.
    + destruct (NP h Hh) as (it & q & G & Tq). exists it, q.
      now rewrite attach_items.
    + apply in_app_or in Hh. destruct Hh as [Hh|[<-|[]]]; auto.
      exists itx, p. auto.
    + destruct (NP h Hh) as (it & q & G & Tq). exists it, q. split; auto.
      rewrite clearParent_get.
      replace (String.eqb h x) with false; auto.
      symmetry. apply String.eqb_neq. congruence.
    + auto.
Qed.

Lemma pass_first_top t :
  loaded t ->
  let r := Build._buildTree t (Dict.keys (_items t)) in
  passInv (fst r) (snd r)
  /\ childHandles (fst r) Model.root
     = filter (Roots.topLevel t) (Dict.keys (_items t))
  /\ (forall h, In h (snd r) -> namesParent (fst r) h).
Proof.
  intros L. pose proof (loaded_passInv t L) as I.
  pose proof L as (M & N & ND & NE).
  set (items := Dict.keys (_items t)).
  unfold Build._buildTree.
  destruct (pass_fold items
    (fun pre t' remains =>
       ordered t' pre
       /\ (forall c, In c pre -> belongsTo t' None c = Roots.topLevel t c)
       /\ (forall c, ~ In c pre ->
             Dict.get c (_items t') = Dict.get c (_items t))
       /\ (forall h, In h remains -> namesParent t' h)))
    with (rest := items) (pre := @nil string) (t := t) (remains := @nil string)
    as (I' & O & B & _ & NP); auto.
  - intros pre x rest t' remains E ND' I' (O & H).
    split; [eapply step_ordered; eauto | now apply (step_top t items pre x rest)].
  - now rewrite app_nil_r.
  - split; [|split; [|split]]; auto.
    + intros i Hi. unfold childHandles, Model.children, Model.node.
      rewrite M. destruct i as [|[|i]]; reflexivity.
    + intros c [].
    + intros h [].
  - cbn zeta. split; [exact I' | split; [|exact NP]].
    destruct I' as (W & _).
    rewrite (O Model.root) by apply (wf_root W).
    rewrite (proj1 (wf_root W)). now apply filter_ext_in.
Qed.

Lemma childHandles_model t t' i :
  _model t' = _model t -> childHandles t' i = childHandles t i.
Proof. unfold childHandles. now intros ->. Qed.

Lemma step_keeps_top items pre x rest t0 t remains :
  items = pre ++ x :: rest ->
  NoDup items ->
  passInv t (x :: rest ++ remains) ->
  childHandles t Model.root = childHandles t0 Model.root
  /\ (forall h, In h remains \/ (In h items /\ ~ In h pre) ->
        namesParent t h) ->
  childHandles (fst (Build.buildTree_step items (t, remains) x)) Model.root
  = childHandles t0 Model.root
  /\ (forall h,
        In h (snd (Build.buildTree_step items (t, remains) x))
        \/ (In h items /\ ~ In h (pre ++ [x])) ->
        namesParent (fst (Build.buildTree_step items (t, remains) x)) h).
Proof.
  intros E ND (W & St & U & NDp) [C NP].
  destruct (pending_item _ _ x U (or_introl eq_refl)) as (Hn & itx & Hx).
  assert (Hpre : ~ In x pre).
  { subst items. apply NoDup_remove_2 in ND. rewrite in_app_iff in ND. tauto. }
  assert (Hitems : In x items).
  { subst items. apply in_or_app. right. now left. }
  assert (Hrem : ~ In x remains).
  { apply NoDup_cons_iff in NDp. rewrite in_app_iff in NDp. tauto. }
  destruct (NP x (or_intror (conj Hitems Hpre))) as (it & q & G & Tq).
  assert (it = itx) by congruence. subst it.
  assert (Hold : forall h,
            In h remains \/ (In h items /\ ~ In h (pre ++ [x])) ->
            h <> x /\ namesParent t h).
  { intros h [H|[H1 H2]]; split; auto; try congruence.
    - intros ->. apply H2. apply in_or_app. right. now left.
    - apply NP. right. split; auto. intros I. apply H2.
      apply in_or_app. auto. }
  destruct (step_outcome items t remains x itx W Hx)
    as [pid Hp Hcd | p T Np I | p T Np I | T R]; cbn [fst snd].
  - split.
    + rewrite childHandles_attach by assumption.
      destruct (Model.root =? pid) eqn:Er; auto.
      apply Nat.eqb_eq in Er. subst pid. rewrite (proj1 (wf_root W)) in Hcd.
      rewrite (childOf_None_truthy _ _ Tq) in Hcd. discriminate.
    + intros h Hh. destruct (Hold h Hh) as [_ (it & r & G' & Tr)].
      exists it, r. now rewrite attach_items.
  - split; auto. intros h [Hh|Hh].
    + apply in_app_or in Hh. destruct Hh as [Hh|[<-|[]]].
      * apply NP. now left.
      * exists itx, q. auto.
    + now apply (Hold h (or_intror Hh)).
  - split.
    + rewrite <- C. apply childHandles_model.
      now destruct (clearParent_sameLayer t x Hn).
    + intros h Hh. destruct (Hold h Hh) as [Ne (it & r & G' & Tr)].
      exists it, r. split; auto. rewrite clearParent_get.
      replace (String.eqb h x) with false; auto.
      symmetry. now apply String.eqb_neq.
  - congruence.
Qed.

Lemma pass_keeps_top items t :
  passInv t items ->
  (forall h, In h items -> namesParent t h) ->
  childHandles (fst (Build._buildTree t items)) Model.root
  = childHandles t Model.root
  /\ (forall h, In h (snd (Build._buildTree t items)) ->
        namesParent (fst (Build._buildTree t items)) h).
Proof.
  intros I NP. unfold Build._buildTree.
  pose proof I as (_ & _ & _ & ND).
  destruct (pass_fold items
    (fun pre t' remains =>
       childHandles t' Model.root = childHandles t Model.root
       /\ (forall h, In h remains \/ (In h items /\ ~ In h pre) ->
             namesParent t' h)))
    with (rest := items) (pre := @nil string) (t := t) (remains := @nil string)
    as (_ & C & NP'); auto.
  - intros pre x rest t' remains E ND' I' H.
    now apply (step_keeps_top items pre x rest).
  - now rewrite app_nil_r.
  - split; auto. intros h [[]|[H _]]. auto.
Qed.

Lemma buildLoop_keeps_top n : forall t later,
  passInv t later ->
  (forall h, In h later -> namesParent t h) ->
  childHandles (Build.buildLoop n t later) Model.root
  = childHandles t Model.root.
Proof.
  induction n as [|n IH]; intros t later I NP.
  - apply childHandles_model.
    destruct I as (_ & _ & U & _).
    now destruct (clearAll_sameLayer later t U).
  - rewrite buildLoop_S.
    destruct (pass_keeps_top later t I NP) as [C NP'].
    rewrite IH; auto. now apply pass_passInv.
Qed.

Lemma top_level_nodes t :
  loaded t ->
  childHandles (Build.buildModel t) Model.root
  = filter (Roots.topLevel t) (Tree.handles t).
Proof.
  intros L. unfold Build.buildModel. rewrite buildLoop_S.
  destruct (pass_first_top t L) as (I & C & NP).
  rewrite buildLoop_keeps_top; auto.
Qed.

(** X7: after [unpack] and [buildModel], the nodes below the synthetic
    root are those of the items that are of the root type and name no
    parent in the list as loaded, in the order of the list, whatever
    else the list holds. *)
Theorem buildModel_top_level (data : list ItemData) (t0 : NWTree) :
  childHandles (Build.buildModel (Tree.unpack data t0)) Model.root
  = filter (Roots.topLevel (Tree.unpack data t0))
           (Tree.handles (Tree.unpack data t0)).
Proof. apply top_level_nodes. apply unpack_loaded. Qed.

(** ** Looking up roots *)

Lemma firstOfClass_objects t cl ns :
  Query.firstOfClass t cl ns =
  match cl with
  | Some c =>
      option_map itemHandle
        (find (Roots.hasClass c)
              (flat_map (fun n => match Tree.node_object t n with
                                  | Some it => [it]
                                  | None => []
                                  end) ns))
  | None => None
  end.
Proof.
  induction ns as [|n ns IH]; cbn [Query.firstOfClass flat_map].
  - now destruct cl.
  - destruct (Tree.node_object t n) as [it|]; [|exact IH].
    destruct cl as [c|]; cbn [Query.option_class_eqb app find].
    + unfold Roots.hasClass at 1.
      destruct (nwItemClass_eqb (itemClass it) c); [reflexivity | exact IH].
    + exact IH.
Qed.

Lemma addClass_In s c c' :
  In c' (Roots.addClass s c) <-> c' = c \/ In c' s.
Proof.
  unfold Roots.addClass.
  destruct (existsb (nwItemClass_eqb c) s) eqn:E.
  - split; auto. intros [->|H]; auto.
    apply existsb_exists in E. destruct E as (y & I & E).
    apply nwItemClass_eqb_eq in E. now subst.
  - rewrite in_app_iff. simpl. intuition.
Qed.

Lemma addClass_NoDup s c : NoDup s -> NoDup (Roots.addClass s c).
Proof.
  intros ND. unfold Roots.addClass.
  destruct (existsb (nwItemClass_eqb c) s) eqn:E; auto.
  apply NoDup_app; auto.
  - repeat constructor. simpl. tauto.
  - intros x I [<-|[]].
    assert (existsb (nwItemClass_eqb c) s = true); [|congruence].
    apply existsb_exists. exists c. split; auto.
    now apply nwItemClass_eqb_eq.
Qed.

Lemma rootClasses_fold t ns : forall s,
  NoDup s ->
  let r := fold_left
             (fun s n => match Tree.node_object t n with
                         | Some it => Roots.addClass s (itemClass it)
                         | None => s
                         end) ns s in
  NoDup r
  /\ forall c, In c r <->
       In c s
       \/ exists it,
            In it (flat_map (fun n => match Tree.node_object t n with
                                      | Some it => [it]
                                      | None => []
                                      end) ns)
            /\ itemClass it = c.
Proof.
  induction ns as [|n ns IH]; intros s ND; cbn [fold_left flat_map].
  - split; auto. intros c. split; auto. intros [H|(it & [] & _)]. exact H.
  - destruct (Tree.node_object t n) as [it|].
    + destruct (IH (Roots.addClass s (itemClass it)) (addClass_NoDup _ _ ND))
        as [ND' H].
      split; auto. intros c. rewrite H, addClass_In. cbn [app].
      split.
      * intros [[->|Hs]|(it' & I & E)]; auto.
        -- right. exists it. split; auto. now left.
        -- right. exists it'. split; auto. now right.
      * intros [Hs|(it' & [<-|I] & E)]; auto.
        right. eauto.
    + destruct (IH s ND) as [ND' H]. split; auto.
Qed.

(** X8: [findRoot] returns the handle of the first item below the
    synthetic root that has the class asked for, and [None] when asked
    for no class; [rootClasses] holds each class once, and holds a
    class exactly when [findRoot] finds a root of it. *)
Theorem findRoot_rootClasses (t : NWTree) (c : nwItemClass) :
  Query.findRoot t (Some c)
  = option_map itemHandle (find (Roots.hasClass c) (Roots.rootObjects t))
  /\ Query.findRoot t None = None
  /\ NoDup (Roots.rootClasses t)
  /\ (In c (Roots.rootClasses t) <-> Query.findRoot t (Some c) <> None).
Proof.
  unfold Query.findRoot, Roots.rootObjects, Roots.rootClasses.
  rewrite !firstOfClass_objects.
  destruct (rootClasses_fold t (Model.children (_model t) Model.root) []
              (NoDup_nil _)) as [ND H].
  split; [reflexivity | split; [reflexivity | split; [exact ND|]]].
  cbn zeta in H. rewrite H. split.
  - intros [[]|(it & I & E)].
    destruct (find (Roots.hasClass c) _) eqn:F; [discriminate|].
    exfalso. apply (find_none _ _ F) in I.
    unfold Roots.hasClass in I. rewrite E in I.
    assert (nwItemClass_eqb c c = true) by now apply nwItemClass_eqb_eq.
    congruence.
  - intros F. right.
    destruct (find (Roots.hasClass c) _) as [it|] eqn:Ff; [|now elim F].
    apply find_some in Ff. destruct Ff as [I E].
    exists it. split; auto. now apply nwItemClass_eqb_eq.
Qed.

Lemma objects_by_handle t ns :
  flat_map (fun n => match Tree.node_object t n with
                     | Some it => [it]
                     | None => []
                     end) ns
  = flat_map (fun h => match Dict.get h (_items t) with
                       | Some it => [it]
                       | None => []
                       end)
             (flat_map (fun c => match handleOf (_model t) c with
                                 | Some h => [h]
                                 | None => []
                                 end) ns).
Proof.
  induction ns as [|n ns IH]; cbn [flat_map]; auto.
  rewrite flat_map_app, <- IH, node_object_handleOf.
  destruct (handleOf (_model t) n) as [h|]; cbn [flat_map app]; auto.
  now rewrite app_nil_r.
Qed.

Lemma iterRoots_objects t cl :
  Roots.iterRoots t cl =
  flat_map (fun it =>
              if Item.isRootType it
              then match cl with
                   | None => [Roots.yielded it]
                   | Some c =>
                       if Roots.hasClass c it then [Roots.yielded it] else []
                   end
              else [])
           (Roots.rootObjects t).
Proof.
  unfold Roots.iterRoots, Roots.rootObjects.
  induction (Model.children (_model t) Model.root) as [|n ns IH];
    cbn [flat_map]; auto.
  rewrite flat_map_app, <- IH.
  destruct (Tree.node_object t n) as [it|]; cbn [flat_map app]; auto.
  now rewrite app_nil_r.
Qed.

Lemma filter_all {A} (l : list A) : filter (fun _ => true) l = l.
Proof.
  induction l as [|a l IH]; cbn [filter]; [reflexivity | now rewrite IH].
Qed.

Lemma hd_error_filter {A} (f : A -> bool) l :
  hd_error (filter f l) = find f l.
Proof.
  induction l as [|a l IH]; cbn [filter find]; auto.
  now destruct (f a).
Qed.

Lemma topItems_root_type t it :
  In it (Roots.topItems t) ->
  Item.isRootType it = true /\ truthy (itemParent it) = None.
Proof.
  unfold Roots.topItems. rewrite in_flat_map. intros (h & Hh & Hi).
  apply filter_In in Hh. destruct Hh as [_ Ht].
  unfold Roots.topLevel in Ht.
  destruct (Dict.get h (_items t)) as [it'|]; [|contradiction].
  destruct Hi as [->|[]]. unfold childOf in Ht.
  destruct (truthy (itemParent it)); [discriminate | auto].
Qed.

Lemma built_rootObjects data t0 :
  Roots.rootObjects (Build.buildModel (Tree.unpack data t0))
  = Roots.topItems (Tree.unpack data t0).
Proof.
  pose proof (unpack_loaded data t0) as L.
  destruct (buildModel_passInv _ L) as (W & _).
  unfold Roots.rootObjects, Roots.topItems.
  rewrite objects_by_handle.
  fold (childHandles (Build.buildModel (Tree.unpack data t0)) Model.root).
  pose proof (top_level_nodes _ L) as T. rewrite <- T.
  apply flat_map_ext_In. intros h Hh.
  apply in_childHandles in Hh. destruct Hh as (c & _ & Hc).
  apply (wf_node W) in Hc.
  pose proof (buildLoop_untouched (_items (Tree.unpack data t0)) 999
                (Tree.unpack data t0) _ (loaded_passInv _ L)
                (fun h => or_introl eq_refl) h) as [H|[H _]].
  - unfold Build.buildModel. now rewrite H.
  - unfold Build.buildModel in Hc. congruence.
Qed.

(** X9: after [unpack] and [buildModel], [iterRoots] yields the items
    that are of the root type and name no parent, of the class asked
    for or of all classes, in the order of the list, and [findRoot]
    returns the handle that [iterRoots] yields first. *)
Theorem roots_of_built_tree (data : list ItemData) (t0 : NWTree)
    (c : nwItemClass) :
  let t := Build.buildModel (Tree.unpack data t0) in
  Roots.iterRoots t None
  = map Roots.yielded (Roots.topItems (Tree.unpack data t0))
  /\ Roots.iterRoots t (Some c)
     = map Roots.yielded
         (filter (Roots.hasClass c) (Roots.topItems (Tree.unpack data t0)))
  /\ Query.findRoot t (Some c)
     = option_map fst (hd_error (Roots.iterRoots t (Some c))).
Proof.
  intros t.
  assert (I : forall cl,
            Roots.iterRoots t cl =
            map Roots.yielded
              (filter (fun it => match cl with
                                 | None => true
                                 | Some c => Roots.hasClass c it
                                 end)
                      (Roots.topItems (Tree.unpack data t0)))).
  { intros cl. rewrite iterRoots_objects. unfold t.
    rewrite built_rootObjects.
    pose proof (topItems_root_type (Tree.unpack data t0)) as R.
    induction (Roots.topItems (Tree.unpack data t0)) as [|it l IH];
      cbn [flat_map filter map]; auto.
    rewrite (proj1 (R it (or_introl eq_refl))).
    rewrite IH by (intros it' Hi; apply R; now right).
    destruct cl as [c'|]; [|reflexivity].
    destruct (Roots.hasClass c' it); reflexivity. }
  split; [|split].
  - rewrite (I None).
    now rewrite filter_all.
  - apply (I (Some c)).
  - rewrite (I (Some c)).
    unfold Query.findRoot. rewrite firstOfClass_objects.
    fold (Roots.rootObjects t). unfold t. rewrite built_rootObjects.
    rewrite <- hd_error_filter.
    destruct (filter (Roots.hasClass c) _); reflexivity.
Qed.

(** ** What the consistency check leaves alone *)

Lemma sameButCaches_refl it : sameButCaches it it.
Proof. repeat split. Qed.

Lemma sameButCaches_trans a b c :
  sameButCaches a b -> sameButCaches b c -> sameButCaches a c.
Proof. unfold sameButCaches. intuition congruence. Qed.

Lemma itemsAlike_refl d : itemsAlike d d.
Proof.
  induction d as [|e d IH]; constructor; auto.
  split; auto. apply sameButCaches_refl.
Qed.

Lemma itemsAlike_trans d1 : forall d2 d3,
  itemsAlike d1 d2 -> itemsAlike d2 d3 -> itemsAlike d1 d3.
Proof.
  induction d1 as [|e1 d1 IH]; intros d2 d3 H12 H23.
  - inversion H12; subst. inversion H23; subst. constructor.
  - inversion H12 as [|a b l l' Hab Hl]; subst.
    inversion H23 as [|a' c l2 l3 Hbc Hl']; subst.
    destruct Hab as [K1 S1], Hbc as [K2 S2]. constructor.
    + split; [congruence|]. eapply sameButCaches_trans; eauto.
    + eapply IH; eauto.
Qed.

Lemma itemsAlike_set k it it' d :
  Dict.get k d = Some it -> sameButCaches it it' ->
  itemsAlike d (Dict.set k it' d).
Proof.
  intros G S. induction d as [|[k0 v0] d IH]; simpl in *; [discriminate|].
  destruct (String.eqb k k0) eqn:E.
  - injection G as ->. constructor; [|apply itemsAlike_refl].
    split; auto.
  - constructor; [|now apply IH]. split; auto. apply sameButCaches_refl.
Qed.

Lemma itemsAlike_keys d : forall d',
  itemsAlike d d' -> Dict.keys d' = Dict.keys d.
Proof.
  induction d as [|e d IH]; intros d' H; inversion H as [|a b l l' Hab Hl];
    subst; auto.
  unfold Dict.keys in *. cbn [map]. destruct Hab as [-> _].
  f_equal. now apply IH.
Qed.

Lemma itemsAlike_get k d : forall d',
  itemsAlike d d' -> alike (Dict.get k d) (Dict.get k d').
Proof.
  induction d as [|[k0 v0] d IH]; intros d' H;
    inversion H as [|a b l l' Hab Hl]; subst; cbn [Dict.get alike]; auto.
  destruct b as [k1 v1]. cbn [fst snd] in Hab. destruct Hab as [-> S].
  cbn [Dict.get]. destruct (String.eqb k k0); cbn [alike]; auto.
Qed.

Lemma cachesOnly_refl t : cachesOnly t t.
Proof. repeat split. apply itemsAlike_refl. Qed.

Lemma cachesOnly_trans t1 t2 t3 :
  cachesOnly t1 t2 -> cachesOnly t2 t3 -> cachesOnly t1 t3.
Proof.
  intros (M & N & T & C & I) (M' & N' & T' & C' & I').
  repeat split; try congruence. eapply itemsAlike_trans; eauto.
Qed.

Lemma cachesOnly_getitem t t' h :
  cachesOnly t t' -> alike (Tree.getitem t h) (Tree.getitem t' h).
Proof.
  intros (_ & _ & _ & _ & I). unfold Tree.getitem.
  destruct h as [k|]; cbn [alike]; auto.
  destruct (String.eqb k ""); cbn [alike]; auto.
  now apply itemsAlike_get.
Qed.

Lemma findRootItem_caches t t' :
  cachesOnly t t' ->
  forall fuel it it',
    sameButCaches it it' ->
    sameWalk (Query.findRootItem fuel t it) (Query.findRootItem fuel t' it').
Proof.
  intros C. induction fuel as [|fuel IH]; intros it it' S;
    cbn [Query.findRootItem sameWalk]; auto.
  pose proof S as (_ & P & _). rewrite P.
  destruct (itemParent it) as [p|]; [|exact S].
  pose proof (cachesOnly_getitem t t' (Some p) C) as G.
  destruct (Tree.getitem t (Some p)), (Tree.getitem t' (Some p));
    cbn [alike] in G; try contradiction; cbn [sameWalk alike]; auto.
Qed.

Lemma updateItemData_within_caches depth t t' h :
  cachesOnly t t' ->
  sameOutcome (Query.updateItemData_within depth t h)
              (Query.updateItemData_within depth t' h).
Proof.
  intros C. unfold Query.updateItemData_within.
  pose proof (cachesOnly_getitem t t' (Some h) C) as G.
  destruct (Tree.getitem t (Some h)) as [a|],
           (Tree.getitem t' (Some h)) as [b|];
    cbn [alike] in G; try contradiction; cbn [sameOutcome]; auto.
  pose proof (findRootItem_caches t t' C depth a b G) as W.
  destruct (Query.findRootItem depth t a) as [[r|]|e],
           (Query.findRootItem depth t' b) as [[r'|]|e'];
    cbn [sameWalk alike] in W; try contradiction;
    cbn [bind sameOutcome]; auto.
Qed.

Lemma verifies_caches t t' h :
  cachesOnly t t' -> verifies t' h = verifies t h.
Proof.
  intros C. unfold verifies, Query.updateItemData.
  pose proof (updateItemData_within_caches MAX_DEPTH t t' h C) as O.
  destruct (Query.updateItemData_within MAX_DEPTH t h) as [[b u]|e],
           (Query.updateItemData_within MAX_DEPTH t' h) as [[b' u']|e'];
    cbn [sameOutcome] in O; try contradiction; subst; auto.
Qed.

Lemma getitem_Some t h it :
  Tree.getitem t (Some h) = Some it -> Dict.get h (_items t) = Some it.
Proof.
  unfold Tree.getitem. destruct (String.eqb h ""); [discriminate | auto].
Qed.

Lemma updateItemData_within_cachesOnly depth t h b t' :
  Query.updateItemData_within depth t h = Ok (b, t') -> cachesOnly t t'.
Proof.
  unfold Query.updateItemData_within.
  destruct (Tree.getitem t (Some h)) as [a|] eqn:G.
  - destruct (Query.findRootItem depth t a) as [[r|]|e]; cbn [bind];
      intros E; try discriminate; injection E as <- <-.
    + repeat split. cbn [_items Tree.set_items].
      apply itemsAlike_set with (it := a).
      * now apply getitem_Some.
      * repeat split.
    + apply cachesOnly_refl.
  - intros [= <- <-]. apply cachesOnly_refl.
Qed.

Lemma updateItemData_within_exn depth t h e :
  Query.updateItemData_within depth t h = Raise e -> e = RecursionError.
Proof.
  unfold Query.updateItemData_within.
  destruct (Tree.getitem t (Some h)) as [a|]; [|discriminate].
  destruct (Query.findRootItem depth t a) as [[r|]|e'] eqn:F; cbn [bind];
    intros E; try discriminate.
  injection E as <-. eapply findRootItem_raises; eauto.
Qed.

Lemma filter_twice {A} (p q : A -> bool) l :
  filter p (filter q l) = filter (fun x => q x && p x) l.
Proof.
  induction l as [|a l IH]; cbn [filter]; auto.
  destruct (q a); cbn [filter andb]; [destruct (p a)|]; now rewrite IH.
Qed.

Lemma verify_loop t ks : forall t1 files,
  cachesOnly t t1 ->
  match for_each Consistency.verify_step ks (t1, files) with
  | Ok (t2, files2) =>
      cachesOnly t t2
      /\ files2 = filter (fun f => negb (inb f (filter (verifies t) ks))) files
      /\ forall k, In k ks ->
           Query.updateItemData t k <> Raise RecursionError
  | Raise e =>
      e = RecursionError
      /\ exists k, In k ks /\ Query.updateItemData t k = Raise RecursionError
  end.
Proof.
  induction ks as [|k ks IH]; intros t1 files C; cbn [for_each].
  - split; [auto|split]; [|intros k []].
    cbn [filter inb existsb negb]. unfold inb. cbn [existsb negb].
    now rewrite filter_all.
  - unfold Consistency.verify_step at 1.
    pose proof (updateItemData_within_caches MAX_DEPTH t t1 k C) as O.
    fold Query.updateItemData in O.
    pose proof (verifies_caches t t1 k C) as V. unfold verifies in V.
    destruct (Query.updateItemData t1 k) as [[b u]|e] eqn:U.
    + destruct (Query.updateItemData t k) as [[b0 u0]|e0] eqn:U0;
        cbn [sameOutcome] in O; [subst b0 | contradiction].
      assert (C' : cachesOnly t u).
      { eapply cachesOnly_trans; eauto.
        eapply updateItemData_within_cachesOnly; eauto. }
      assert (Vk : verifies t k = b).
      { unfold verifies. rewrite U0. now destruct b. }
      cbn [bind]. destruct b; cbn [bind].
      * specialize (IH u (Consistency.discard k files) C').
        destruct (for_each Consistency.verify_step ks
                    (u, Consistency.discard k files)) as [[t2 f2]|e].
        -- destruct IH as (C2 & F & R). split; [auto|split].
           ++ rewrite F. unfold Consistency.discard. rewrite filter_twice.
              cbn [filter]. rewrite Vk. apply filter_ext. intros f.
              unfold inb. cbn [existsb]. now rewrite negb_orb.
           ++ intros k' [<-|I]; [congruence | auto].
        -- destruct IH as (-> & k' & I & R). split; auto.
           exists k'. split; auto. now right.
      * unfold Tree.delitem. specialize (IH u files C').
        destruct (for_each Consistency.verify_step ks (u, files))
          as [[t2 f2]|e].
        -- destruct IH as (C2 & F & R). split; [auto|split].
           ++ rewrite F. cbn [filter]. now rewrite Vk.
           ++ intros k' [<-|I]; [congruence | auto].
        -- destruct IH as (-> & k' & I & R). split; auto.
           exists k'. split; auto. now right.
    + destruct (Query.updateItemData t k) as [[b0 u0]|e0] eqn:U0;
        cbn [sameOutcome] in O; [contradiction | subst e0].
      cbn [bind].
      pose proof (updateItemData_within_exn MAX_DEPTH t1 k e U) as ->.
      split; auto. exists k. split; auto. now left.
Qed.

Lemma resolveParent_same t prefix oParent oClass p t' :
  Consistency.resolveParent t prefix oParent oClass = Ok (p, t') -> t' = t.
Proof.
  unfold Consistency.resolveParent, Tree.create.
  destruct (match
               match
                 match oParent with
                 | Some p0 => if Dict.mem p0 (_nodes t) then Some p0 else None
                 | None => None
                 end
               with
               | Some _ => _
               | None => Query.findRoot t (Some oClass)
               end
             with
             | Some _ => _
             | None => Query.findRoot t (Some NOVEL)
             end) as [q|]; [|discriminate].
  now intros [= _ <-].
Qed.

Lemma recover_loop meta prefix files : forall t1 n r,
  for_each (Consistency.recover_step meta prefix) files (t1, n) = Ok r ->
  cachesOnly t1 (fst r) /\ snd r = n + List.length files.
Proof.
  induction files as [|f files IH]; intros t1 n r E; cbn [for_each] in E.
  - injection E as <-. cbn [fst snd List.length]. split; [|lia].
    apply cachesOnly_refl.
  - unfold Consistency.recover_step at 1 in E.
    destruct (Consistency.resolveParent t1 prefix (m_parent (meta f))
                (Consistency.orElse (m_class (meta f)) NOVEL))
      as [[p t2]|e] eqn:R; cbn [bind] in E; [|discriminate].
    apply resolveParent_same in R. subst t2.
    unfold Tree.append in E.
    destruct (Query.updateItemData t1 f) as [[b u]|e] eqn:U;
      cbn [bind snd] in E; [|discriminate].
    apply IH in E. destruct E as [C ->]. cbn [List.length]. split; [|lia].
    eapply cachesOnly_trans; eauto.
    eapply updateItemData_within_cachesOnly; eauto.
Qed.

Lemma checkConsistency_run scan meta prefix t :
  match Consistency.checkConsistency scan meta prefix t with
  | Ok ((o, r), t') =>
      cachesOnly t t'
      /\ o = List.length (orphans scan t) /\ r = o
      /\ forall k, In k (Dict.keys (_nodes t)) ->
           Query.updateItemData t k <> Raise RecursionError
  | Raise _ => True
  end.
Proof.
  unfold Consistency.checkConsistency.
  pose proof (verify_loop t (Dict.keys (_nodes t)) t
                (Consistency.fileSet scan) (cachesOnly_refl t)) as V.
  destruct (for_each Consistency.verify_step (Dict.keys (_nodes t))
              (t, Consistency.fileSet scan)) as [[t1 files]|e];
    cbn [bind]; auto.
  destruct V as (C & F & R). fold (verified t) in F. fold (orphans scan t) in F.
  subst files.
  destruct (List.length (orphans scan t) =? 0) eqn:Z.
  - apply Nat.eqb_eq in Z. rewrite Z. auto.
  - destruct (for_each (Consistency.recover_step meta prefix)
                (orphans scan t) (t1, 0)) as [[t2 n]|e] eqn:E;
      cbn [bind fst snd]; auto.
    apply recover_loop in E. cbn [fst snd] in E. destruct E as [C2 ->].
    split; [|split; [|split]]; auto.
    eapply cachesOnly_trans; eauto.
Qed.

(** X10: a consistency check that returns has changed nothing but
    what is cached on the items: the node layer, the handle index, the
    trash handle and the changed flag are as before, and the store
    holds the same handles in the same order, each item with the
    parent, type, name and word count it had. *)
Theorem checkConsistency_keeps_structure (scan : list string)
    (meta : string -> Meta) (prefix : string) (t : NWTree)
    (c : nat * nat) (t' : NWTree) :
  Consistency.checkConsistency scan meta prefix t = Ok (c, t') ->
  cachesOnly t t' /\ Tree.handles t' = Tree.handles t.
Proof.
  intros E. pose proof (checkConsistency_run scan meta prefix t) as R.
  rewrite E in R. destruct c as [o r]. destruct R as (C & _).
  split; auto. destruct C as (_ & _ & _ & _ & I).
  now apply itemsAlike_keys.
Qed.

Lemma checkConsistency_keeps_structure_witness :
  cachesOnly Scenario.built Scenario.checked
  /\ Tree.handles Scenario.checked = Tree.handles Scenario.built.
Proof.
  apply (checkConsistency_keeps_structure Scenario.scanned Sample.strayMeta
           "Recovered" Scenario.built (1, 1) Scenario.checked).
  vm_compute. reflexivity.
Defined.

(** X11: the first number that a consistency check returns counts the
    scanned units, each once, that are not handles with a node on
    which [updateItemData] succeeds, and the second number equals the
    first. *)
Theorem checkConsistency_counts (scan : list string)
    (meta : string -> Meta) (prefix : string) (t : NWTree)
    (o r : nat) (t' : NWTree) :
  Consistency.checkConsistency scan meta prefix t = Ok ((o, r), t') ->
  o = List.length (orphans scan t) /\ r = o.
Proof.
  intros E. pose proof (checkConsistency_run scan meta prefix t) as R.
  rewrite E in R. destruct R as (_ & O & Rc & _). auto.
Qed.

Lemma checkConsistency_counts_witness :
  1 = List.length (orphans Scenario.scanned Scenario.built) /\ 1 = 1.
Proof.
  apply (checkConsistency_counts Scenario.scanned Sample.strayMeta
           "Recovered" Scenario.built 1 1 Scenario.checked).
  vm_compute. reflexivity.
Defined.

(** X12: when [updateItemData] raises on no handle that has a node
    and every scanned unit is verified, the consistency check returns
    (0, 0). *)
Theorem checkConsistency_clean (scan : list string)
    (meta : string -> Meta) (prefix : string) (t : NWTree) :
  (forall k, In k (Dict.keys (_nodes t)) ->
             Query.updateItemData t k <> Raise RecursionError) ->
  orphans scan t = [] ->
  exists t',
    Consistency.checkConsistency scan meta prefix t = Ok ((0, 0), t').
Proof.
  intros NR O. unfold Consistency.checkConsistency.
  pose proof (verify_loop t (Dict.keys (_nodes t)) t
                (Consistency.fileSet scan) (cachesOnly_refl t)) as V.
  destruct (for_each Consistency.verify_step (Dict.keys (_nodes t))
              (t, Consistency.fileSet scan)) as [[t1 files]|e].
  - destruct V as (_ & F & _). fold (verified t) in F.
    fold (orphans scan t) in F. rewrite O in F. subst files.
    cbn [bind List.length Nat.eqb]. now exists t1.
  - destruct V as (_ & k & I & R). now apply NR in R.
Qed.

Lemma checkConsistency_clean_witness :
  exists t',
    Consistency.checkConsistency [Sample.h1; Sample.h3] Sample.strayMeta
      "Recovered" Scenario.built = Ok ((0, 0), t').
Proof.
  apply (checkConsistency_clean [Sample.h1; Sample.h3] Sample.strayMeta
           "Recovered" Scenario.built).
  - intros k I. vm_compute in I.
    repeat (destruct I as [<-|I]; [vm_compute; discriminate|]).
    destruct I.
  - vm_compute. reflexivity.
Defined.

(** X13: when [updateItemData] raises on a handle that has a node, the
    consistency check raises [RecursionError]. *)
Theorem checkConsistency_recursion (scan : list string)
    (meta : string -> Meta) (prefix : string) (t : NWTree) (k : string) :
  Dict.mem k (_nodes t) = true ->
  Query.updateItemData t k = Raise RecursionError ->
  Consistency.checkConsistency scan meta prefix t = Raise RecursionError.
Proof.
  intros M U. apply mem_true_keys in M.
  unfold Consistency.checkConsistency.
  pose proof (verify_loop t (Dict.keys (_nodes t)) t
                (Consistency.fileSet scan) (cachesOnly_refl t)) as V.
  destruct (for_each Consistency.verify_step (Dict.keys (_nodes t))
              (t, Consistency.fileSet scan)) as [[t1 files]|e].
  - destruct V as (_ & _ & NR). now apply NR in U.
  - destruct V as (-> & _). reflexivity.
Qed.

Lemma checkConsistency_recursion_witness :
  Consistency.checkConsistency [] Sample.strayMeta "Recovered" Scenario.deep
  = Raise RecursionError.
Proof.
  apply (checkConsistency_recursion [] Sample.strayMeta "Recovered"
           Scenario.deep (Handle.format013x (N.of_nat MAX_DEPTH))).
  - vm_compute. reflexivity.
  - vm_compute. reflexivity.
Defined.

(** ** New handles and copies *)

Lemma makeHandle_sound rng t depth : forall k h k',
  Handle._makeHandle depth rng k t = Some (h, k') ->
  k < k' <= k + depth
  /\ h = Handle.format013x (Handle.getrandbits 52 (rng (k' - 1)))
  /\ Dict.mem h (_items t) = false
  /\ forall j, k <= j < k' - 1 ->
       Dict.mem (Handle.format013x (Handle.getrandbits 52 (rng j)))
                (_items t) = true.
Proof.
  induction depth as [|depth IH]; intros k h k' E; [discriminate|].
  rewrite makeHandle_unfold in E.
  destruct (Dict.mem (Handle.format013x (Handle.getrandbits 52 (rng k)))
                     (_items t)) eqn:M.
  - apply IH in E. destruct E as (B & Eh & F & C).
    split; [lia|]. split; [auto|]. split; [auto|].
    intros j Hj. destruct (Nat.eq_dec j k) as [->|N]; auto.
    apply C. lia.
  - injection E as <- <-. split; [lia|].
    replace (S k - 1) with k by lia. split; [auto|]. split; [auto|].
    intros j Hj. lia.
Qed.

(** X14: when [_makeHandle] returns, it returns the last draw it made,
    formatted as 13 hex digits, a well-formed handle that the store
    does not hold; it has made at least one draw and no more draws
    than calls were possible, and every draw before the last one is a
    handle of the store. *)
Theorem makeHandle_returns_fresh (rng : nat -> N) (t : NWTree)
    (depth k : nat) (h : string) (k' : nat) :
  Handle._makeHandle depth rng k t = Some (h, k') ->
  k < k' <= k + depth
  /\ h = Handle.format013x (Handle.getrandbits 52 (rng (k' - 1)))
  /\ isHandle h = true
  /\ Tree.contains t h = false
  /\ forall j, k <= j < k' - 1 ->
       Tree.contains t
         (Handle.format013x (Handle.getrandbits 52 (rng j))) = true.
Proof.
  intros E. apply makeHandle_sound in E. destruct E as (B & -> & F & C).
  repeat split; auto; try lia. apply format013x_isHandle.
Qed.

Lemma makeHandle_returns_fresh_witness :
  0 < 2 <= 0 + 5
  /\ Sample.h1 = Handle.format013x (Handle.getrandbits 52 (N.of_nat (2 - 1)))
  /\ isHandle Sample.h1 = true
  /\ Tree.contains Sample.zeroTree Sample.h1 = false
  /\ forall j, 0 <= j < 2 - 1 ->
       Tree.contains Sample.zeroTree
         (Handle.format013x (Handle.getrandbits 52 (N.of_nat j))) = true.
Proof.
  apply (makeHandle_returns_fresh N.of_nat Sample.zeroTree 5 0 Sample.h1 2).
  vm_compute. reflexivity.
Defined.


Lemma hexVal_hexChar d : (d < 16)%N -> Copy.hexVal (Handle.hexChar d) = d.
Proof.
  intros H. destruct d as [|p]; [reflexivity|].
  do 4 (destruct p as [p|p|]; try reflexivity); lia.
Qed.

Lemma parseHex_hexPad w : forall n acc a,
  Copy.parseHex (Handle.hexPad w n acc) a
  = Copy.parseHex acc (a * 16 ^ N.of_nat w + n mod 16 ^ N.of_nat w)%N.
Proof.
  induction w as [|w IH]; intros n acc a.
  - cbn [Handle.hexPad]. change (16 ^ N.of_nat 0)%N with 1%N.
    rewrite N.mod_1_r. f_equal. lia.
  - cbn [Handle.hexPad]. rewrite IH. cbn [Copy.parseHex].
    rewrite hexVal_hexChar by (apply N.mod_lt; discriminate).
    f_equal. rewrite Nat2N.inj_succ, N.pow_succ_r'.
    rewrite (N.Div0.mod_mul_r n 16 (16 ^ N.of_nat w)). ring.
Qed.

(** X16: the handle that [_makeHandle] formats denotes the draw it was
    formatted from, so two draws give the same handle only when they
    are the same number. *)
Theorem format013x_draws (a b : N) :
  Copy.parseHex (Handle.format013x (Handle.getrandbits 52 a)) 0
  = Handle.getrandbits 52 a
  /\ (Handle.format013x (Handle.getrandbits 52 a)
      = Handle.format013x (Handle.getrandbits 52 b)
      <-> Handle.getrandbits 52 a = Handle.getrandbits 52 b).
Proof.
  assert (P : forall e,
            Copy.parseHex (Handle.format013x (Handle.getrandbits 52 e)) 0
            = Handle.getrandbits 52 e).
  { intros e. unfold Handle.format013x. rewrite parseHex_hexPad.
    cbn [Copy.parseHex]. unfold Handle.getrandbits.
    change (16 ^ N.of_nat 13)%N with (2 ^ 52)%N.
    rewrite N.Div0.mod_mod. lia. }
  split; [apply P|]. split.
  - intros E. rewrite <- (P a), <- (P b). now rewrite E.
  - now intros ->.
Qed.

(** ** Paths and verification after a check *)

Lemma climb_caches t t' asName :
  cachesOnly t t' ->
  forall fuel it it' acc,
    sameButCaches it it' ->
    Path.climb fuel t' asName it' acc = Path.climb fuel t asName it acc.
Proof.
  intros C. induction fuel as [|fuel IH]; intros it it' acc S;
    cbn [Path.climb]; auto.
  pose proof S as (_ & P & _). rewrite P.
  destruct (itemParent it) as [p|]; auto.
  pose proof (cachesOnly_getitem t t' (Some p) C) as G.
  destruct (Tree.getitem t (Some p)) as [a|],
           (Tree.getitem t' (Some p)) as [b|];
    cbn [alike] in G; try contradiction; auto.
  rewrite (IH a b) by exact G. f_equal. f_equal.
  unfold Path.entry. destruct asName; auto.
  destruct G as (_ & _ & _ & N & _). now rewrite N.
Qed.

Lemma getItemPath_within_caches depth t t' h asName :
  cachesOnly t t' ->
  Path.getItemPath_within depth t' h asName
  = Path.getItemPath_within depth t h asName.
Proof.
  intros C. unfold Path.getItemPath_within.
  pose proof (cachesOnly_getitem t t' (Some h) C) as G.
  destruct (Tree.getitem t (Some h)) as [a|],
           (Tree.getitem t' (Some h)) as [b|];
    cbn [alike] in G; try contradiction; [|reflexivity].
  rewrite (climb_caches t t' asName C depth a b) by exact G.
  f_equal. unfold Path.entry. destruct asName; [|reflexivity].
  destruct G as (_ & _ & _ & N & _). now rewrite N.
Qed.

Lemma getItemPath_caches t t' h asName :
  cachesOnly t t' ->
  Path.getItemPath t' h asName = Path.getItemPath t h asName.
Proof. apply getItemPath_within_caches. Qed.

(** X17: caching the root of an item changes no path and does not
    change whether [updateItemData] succeeds, fails or raises on any
    handle; nor does a consistency check that returns. *)
Theorem paths_survive_checks (t : NWTree) (h : string) (asName : bool) :
  (forall h0 b t',
     Query.updateItemData t h0 = Ok (b, t') ->
     Path.getItemPath t' h asName = Path.getItemPath t h asName
     /\ sameOutcome (Query.updateItemData t h) (Query.updateItemData t' h))
  /\ (forall scan meta prefix c t',
        Consistency.checkConsistency scan meta prefix t = Ok (c, t') ->
        Path.getItemPath t' h asName = Path.getItemPath t h asName
        /\ sameOutcome (Query.updateItemData t h)
                       (Query.updateItemData t' h)).
Proof.
  split.
  - intros h0 b t' U.
    apply updateItemData_within_cachesOnly in U. split.
    + now apply getItemPath_caches.
    + now apply updateItemData_within_caches.
  - intros scan meta prefix c t' E.
    pose proof (checkConsistency_run scan meta prefix t) as R.
    rewrite E in R. destruct c as [o r]. destruct R as (C & _). split.
    + now apply getItemPath_caches.
    + now apply updateItemData_within_caches.
Qed.

(** ** Looking up what was loaded *)

Lemma firstSeen_In h l : In h (Snapshot.firstSeen l) <-> In h l.
Proof.
  unfold Snapshot.firstSeen. now rewrite <- in_rev, nodup_In, <- in_rev.
Qed.

Lemma accepted_In it data :
  In it (Snapshot.accepted data) <->
  exists d, In d data /\ Item.unpack d = Some it.
Proof.
  unfold Snapshot.accepted. rewrite in_flat_map. split.
  - intros (d & I & H). exists d. split; auto.
    destruct (Item.unpack d) as [it'|]; [|contradiction].
    destruct H as [->|[]]. reflexivity.
  - intros (d & I & E). exists d. split; auto. rewrite E. now left.
Qed.

Lemma built_keys t :
  Dict.keys (_items (Build.buildModel t)) = Dict.keys (_items t).
Proof.
  apply parentsCleared_keys. apply buildLoop_parentsCleared.
Qed.

Lemma built_itemHandle t h it' :
  Dict.get h (_items (Build.buildModel t)) = Some it' ->
  exists it, Dict.get h (_items t) = Some it /\ itemHandle it' = itemHandle it.
Proof.
  intros G.
  destruct (Dict.get h (_items t)) as [it|] eqn:G0.
  - destruct (parentsCleared_get _ _ h it
                (proj1 (buildLoop_parentsCleared 999 t (Dict.keys (_items t))))
                G0) as (it2 & G2 & S).
    fold (Build.buildModel t) in G2. rewrite G in G2. injection G2 as <-.
    exists it. split; auto. destruct S as [->| ->]; reflexivity.
  - exfalso. apply get_None_keys in G0. rewrite <- built_keys in G0.
    apply get_None_keys in G0. congruence.
Qed.

(** X18: after [unpack] and [buildModel], the tree contains a handle
    exactly when a record of the list has it and it is well formed;
    [__getitem__] then returns an item, which carries that handle; the
    length of the tree is the number of distinct handles accepted, and
    the tree counts as true exactly when a record was accepted. *)
Theorem lookups_after_load (data : list ItemData) (t0 : NWTree)
    (h : string) :
  let t := Build.buildModel (Tree.unpack data t0) in
  (Tree.contains t h = true <->
   isHandle h = true /\ exists d, In d data /\ d_handle d = h)
  /\ (Tree.getitem t (Some h) <> None <-> Tree.contains t h = true)
  /\ (forall it, Tree.getitem t (Some h) = Some it -> itemHandle it = h)
  /\ Counts.len t
     = List.length
         (Snapshot.firstSeen (map itemHandle (Snapshot.accepted data)))
  /\ (Counts.nonEmpty t = true <-> Snapshot.accepted data <> []).
Proof.
  intros t.
  assert (K : Dict.keys (_items t)
              = Snapshot.firstSeen (map itemHandle (Snapshot.accepted data))).
  { unfold t. rewrite built_keys. apply unpack_keys. }
  assert (A : Tree.contains t h = true <->
              isHandle h = true /\ exists d, In d data /\ d_handle d = h).
  { unfold Tree.contains. rewrite mem_true_keys, K, firstSeen_In, in_map_iff.
    split.
    - intros (it & <- & I). split; [eapply accepted_isHandle; eauto|].
      apply accepted_In in I. destruct I as (d & I & E).
      exists d. split; auto. symmetry. now apply unpack_itemHandle.
    - intros (H & d & I & <-). exists (Item.ofData d). split; auto.
      apply accepted_In. exists d. split; auto.
      unfold Item.unpack. now rewrite H. }
  split; [exact A|]. split; [|split; [|split]].
  - unfold Tree.getitem, Tree.contains, Dict.mem.
    destruct (String.eqb h "") eqn:E.
    + apply String.eqb_eq in E. split; [congruence|].
      intros M. apply A in M. destruct M as [M _]. subst h. discriminate M.
    + destruct (Dict.get h (_items t)); split; congruence.
  - intros it G. apply getitem_Some in G.
    apply built_itemHandle in G. destruct G as (it0 & G & ->).
    rewrite unpack_get in G. unfold Snapshot.lastItem in G.
    apply find_some in G. destruct G as [_ G].
    now apply String.eqb_eq in G.
  - unfold Counts.len. rewrite <- K. unfold Dict.keys.
    now rewrite length_map.
  - unfold Counts.nonEmpty.
    assert (E : _items t = [] <-> Snapshot.accepted data = []).
    { split; intros E.
      - destruct (Snapshot.accepted data) as [|it l] eqn:Ea; auto.
        exfalso. assert (I : In (itemHandle it) (Dict.keys (_items t))).
        { rewrite K. apply firstSeen_In. now left. }
        rewrite E in I. destruct I.
      - rewrite E in K. destruct (_items t); [auto | discriminate K]. }
    destruct (_items t) as [|e l]; split; try congruence.
    + intros N. exfalso. apply N. now apply E.
    + intros _ N. apply E in N. discriminate N.
Qed.

(** ** Caching a root twice *)

Lemma set_twice k (v : NWItem) : forall d,
  Dict.set k v (Dict.set k v d) = Dict.set k v d.
Proof.
  induction d as [|[k' v'] d IH]; cbn [Dict.set].
  - now rewrite String.eqb_refl.
  - destruct (String.eqb k k') eqn:E; cbn [Dict.set]; rewrite E; auto.
    now rewrite IH.
Qed.

Section Recache.

Variables (t : NWTree) (h : string) (tItem v : NWItem).
Hypothesis G : Tree.getitem t (Some h) = Some tItem.
Hypothesis P : itemParent v = itemParent tItem.

Local Abbreviation t' := (Tree.set_items t (Dict.set h v (_items t))).

Lemma recache_getitem p :
  Tree.getitem t' (Some p)
  = if String.eqb p h then Some v else Tree.getitem t (Some p).
Proof.
  unfold Tree.getitem in *. cbn [_items Tree.set_items].
  destruct (String.eqb p h) eqn:E.
  - apply String.eqb_eq in E. subst p.
    destruct (String.eqb h ""); [discriminate|]. apply get_set_same.
  - apply String.eqb_neq in E.
    destruct (String.eqb p ""); auto. now apply get_set_other.
Qed.

Lemma recache_walk fuel : forall x y,
  y = x \/ (x = tItem /\ y = v) ->
  match Query.findRootItem fuel t x, Query.findRootItem fuel t' y with
  | Ok (Some r), Ok (Some r') => r' = r \/ (r = tItem /\ r' = v)
  | Ok None, Ok None => True
  | Raise e, Raise e' => e = e'
  | _, _ => False
  end.
Proof.
  induction fuel as [|fuel IH]; intros x y R;
    cbn [Query.findRootItem]; auto.
  assert (E : itemParent y = itemParent x).
  { destruct R as [->|[-> ->]]; auto. }
  rewrite E. destruct (itemParent x) as [p|]; [|exact R].
  rewrite recache_getitem. destruct (String.eqb p h) eqn:Ep.
  - apply String.eqb_eq in Ep. subst p. rewrite G. apply IH. now right.
  - destruct (Tree.getitem t (Some p)) as [z|]; auto.
    apply IH. now left.
Qed.

End Recache.

Lemma cached_twice a tItem :
  Chain.cached a (Chain.cached a tItem) = Chain.cached a tItem.
Proof. reflexivity. Qed.

Lemma cached_self tItem :
  Chain.cached (Chain.cached tItem tItem) (Chain.cached tItem tItem)
  = Chain.cached tItem tItem.
Proof. reflexivity. Qed.

Lemma updateItemData_within_twice depth t h b t' :
  Query.updateItemData_within depth t h = Ok (b, t') ->
  Query.updateItemData_within depth t' h = Ok (b, t').
Proof.
  intros U. pose proof U as U0. unfold Query.updateItemData_within in U.
  destruct (Tree.getitem t (Some h)) as [tItem|] eqn:G.
  - destruct (Query.findRootItem depth t tItem) as [[a|]|e] eqn:F;
      cbn [bind] in U; try discriminate; injection U as <- <-;
      [|exact U0].
    fold (Chain.cached a tItem).
    fold (Chain.cached a tItem) in U0.
    pose proof (recache_walk t h tItem (Chain.cached a tItem) G eq_refl
                  depth tItem (Chain.cached a tItem)
                  (or_intror (conj eq_refl eq_refl))) as W.
    rewrite F in W.
    unfold Query.updateItemData_within at 1.
    rewrite (recache_getitem t h tItem (Chain.cached a tItem) G h).
    rewrite String.eqb_refl.
    destruct (Query.findRootItem depth
                (Tree.set_items t
                   (Dict.set h (Chain.cached a tItem) (_items t)))
                (Chain.cached a tItem)) as [[r'|]|e']; try contradiction.
    cbn [bind]. cbn [_items Tree.set_items].
    fold (Chain.cached r' (Chain.cached a tItem)).
    assert (E : Chain.cached r' (Chain.cached a tItem) = Chain.cached a tItem).
    { destruct W as [->|[-> ->]]; reflexivity. }
    rewrite E, set_twice. reflexivity.
  - injection U as <- <-. exact U0.
Qed.

(** X19: a second [updateItemData] on the same handle returns what the
    first one returned and leaves the tree as the first one left it. *)
Theorem updateItemData_twice (t : NWTree) (tHandle : string) (b : bool)
    (t' : NWTree) :
  Query.updateItemData t tHandle = Ok (b, t') ->
  Query.updateItemData t' tHandle = Ok (b, t').
Proof. apply updateItemData_within_twice. Qed.

Lemma updateItemData_twice_witness :
  exists t',
    Query.updateItemData Sample.shelf Sample.h4 = Ok (true, t')
    /\ Query.updateItemData t' Sample.h4 = Ok (true, t').
Proof.
  eexists. split; [vm_compute; reflexivity|].
  apply (updateItemData_twice Sample.shelf Sample.h4 true).
  vm_compute. reflexivity.
Defined.

(** ** Building on what is built *)

Lemma grows_refl m : grows m m.
Proof.
  intros i n H. exists []. rewrite app_nil_r. now destruct n.
Qed.

Lemma grows_trans m1 m2 m3 : grows m1 m2 -> grows m2 m3 -> grows m1 m3.
Proof.
  intros G1 G2 i n H. destruct (G1 i n H) as (more & H2).
  destruct (G2 _ _ H2) as (more' & H3). cbn [node_item node_children] in H3.
  exists (more ++ more'). now rewrite app_assoc.
Qed.

Lemma attach_grows t pid x :
  grows (_model t) (_model (Build.attach t pid x))
  /\ forall h, Dict.mem h (_nodes t) = true ->
               Dict.mem h (_nodes (Build.attach t pid x)) = true.
Proof.
  split.
  - intros i n H. unfold Build.attach, Model.addChild, Model.node in *.
    cbn [Model.alloc _model Build.set_model_nodes].
    rewrite nth_error_update.
    assert (L : i < List.length (_model t)).
    { apply nth_error_Some. congruence. }
    rewrite nth_error_app1, H by exact L.
    destruct (i =? pid); cbn [option_map node_item node_children]; eauto.
    exists []. rewrite app_nil_r. now destruct n.
  - intros h M. rewrite attach_nodes. apply mem_true_keys.
    apply In_keys_set. right. now apply mem_true_keys.
Qed.

Lemma clearParent_layer t x :
  _model (Build.clearParent t x) = _model t
  /\ _nodes (Build.clearParent t x) = _nodes t.
Proof.
  unfold Build.clearParent. destruct (Dict.get x (_items t)); auto.
Qed.

Lemma step_grows items acc x :
  grows (_model (fst acc)) (_model (fst (Build.buildTree_step items acc x)))
  /\ forall h, Dict.mem h (_nodes (fst acc)) = true ->
       Dict.mem h (_nodes (fst (Build.buildTree_step items acc x))) = true.
Proof.
  destruct acc as [t remains]. unfold Build.buildTree_step. cbn [fst].
  pose proof (grows_refl (_model t)) as R.
  destruct (Dict.get x (_items t)) as [itx|]; auto.
  destruct (truthy (itemParent itx)) as [p|].
  - destruct (Dict.get p (_nodes t)); [apply attach_grows|].
    destruct (inb p items); auto. cbn [fst].
    destruct (clearParent_layer t x) as [-> ->]. auto.
  - destruct (Item.isRootType itx); auto. apply attach_grows.
Qed.

Lemma pass_grows items l : forall acc,
  grows (_model (fst acc))
        (_model (fst (fold_left (Build.buildTree_step items) l acc)))
  /\ forall h, Dict.mem h (_nodes (fst acc)) = true ->
       Dict.mem h (_nodes (fst (fold_left (Build.buildTree_step items) l acc)))
       = true.
Proof.
  induction l as [|x l IH]; intros acc; cbn [fold_left].
  - split; auto. apply grows_refl.
  - destruct (IH (Build.buildTree_step items acc x)) as (G & N).
    destruct (step_grows items acc x) as (G' & N'). split; auto.
    eapply grows_trans; eauto.
Qed.

Lemma clearAll_layer later : forall t,
  _model (fold_left Build.clearParent later t) = _model t
  /\ _nodes (fold_left Build.clearParent later t) = _nodes t.
Proof.
  induction later as [|x later IH]; intros t; cbn [fold_left]; auto.
  destruct (IH (Build.clearParent t x)) as [-> ->].
  apply clearParent_layer.
Qed.

Lemma buildLoop_grows n : forall t later,
  grows (_model t) (_model (Build.buildLoop n t later))
  /\ forall h, Dict.mem h (_nodes t) = true ->
               Dict.mem h (_nodes (Build.buildLoop n t later)) = true.
Proof.
  induction n as [|n IH]; intros t later.
  - cbn [Build.buildLoop]. destruct (clearAll_layer later t) as [-> ->].
    split; auto. apply grows_refl.
  - rewrite buildLoop_S.
    destruct (IH (fst (Build._buildTree t later))
                 (snd (Build._buildTree t later))) as (G & N).
    destruct (pass_grows later later (t, [])) as (G' & N').
    split.
    + eapply grows_trans; eauto.
    + intros h M. apply N. now apply N'.
Qed.

(** X20: [buildModel] takes no node away: every node that the model
    holds keeps its item and its children, in their order, ahead of
    the children that are added, and every handle that has a node
    still has one. *)
Theorem buildModel_only_adds (t : NWTree) :
  grows (_model t) (_model (Build.buildModel t))
  /\ forall h, Dict.mem h (_nodes t) = true ->
               Dict.mem h (_nodes (Build.buildModel t)) = true.
Proof. apply buildLoop_grows. Qed.

(** ** Trash membership once the root is cached *)

Lemma isTrash_cached t h tItem a :
  Tree.getitem t (Some h) = Some tItem ->
  Query.isTrash
    (Tree.set_items t (Dict.set h (Chain.cached a tItem) (_items t))) h
  = true
  <-> itemClass a = TRASH
      \/ exists trash,
           _trash t = Some trash
           /\ (h = trash \/ itemParent tItem = Some trash
               \/ itemHandle a = trash).
Proof.
  intros G. unfold Query.isTrash.
  rewrite (recache_getitem t h tItem (Chain.cached a tItem) G h).
  rewrite String.eqb_refl.
  cbn [Chain.cached Item.setClassDefaults Item.setRoot itemClass itemParent
       itemRoot itemHandle _trash Tree.set_items].
  destruct (nwItemClass_eqb (itemClass a) TRASH) eqn:C.
  { apply nwItemClass_eqb_eq in C. split; auto. }
  assert (NC : itemClass a <> TRASH).
  { intros E. apply nwItemClass_eqb_eq in E. congruence. }
  destruct (_trash t) as [trash|].
  - destruct (String.eqb h trash) eqn:E1.
    { apply String.eqb_eq in E1. split; eauto 6. }
    destruct (option_string_eqb (itemParent tItem) (Some trash)) eqn:E2.
    { apply option_string_eqb_eq in E2. split; eauto 6. }
    destruct (option_string_eqb (Some (itemHandle a)) (Some trash)) eqn:E3.
    { apply option_string_eqb_eq in E3. injection E3 as E3.
      split; eauto 6. }
    split; [discriminate|].
    intros [H|(tr & Htr & H)]; [contradiction|].
    injection Htr as <-. apply String.eqb_neq in E1.
    destruct H as [H|[H|H]]; [contradiction| |].
    + apply option_string_eqb_eq in H. congruence.
    + assert (E : option_string_eqb (Some (itemHandle a)) (Some trash) = true)
        by (apply option_string_eqb_eq; congruence).
      congruence.
  - split; [discriminate|].
    intros [H|(tr & Htr & _)]; [contradiction | discriminate].
Qed.

(** X21: when [updateItemData] succeeds, the walk has gone up the
    parents of the item to an item without parent, and afterwards
    [isTrash] holds of the handle exactly when that item has class
    TRASH, or a trash root is set and it is the handle, the parent of
    the item or the handle of the item that the walk reached. *)
Theorem isTrash_after_update (t : NWTree) (tHandle : string) (t' : NWTree) :
  Query.updateItemData t tHandle = Ok (true, t') ->
  exists tItem above,
    Tree.getitem t (Some tHandle) = Some tItem
    /\ Path.chain t tItem above
    /\ List.length above < MAX_DEPTH
    /\ itemParent (Path.top t tItem above) = None
    /\ (Query.isTrash t' tHandle = true <->
        itemClass (Path.top t tItem above) = TRASH
        \/ exists trash,
             _trash t = Some trash
             /\ (tHandle = trash
                 \/ itemParent tItem = Some trash
                 \/ itemHandle (Path.top t tItem above) = trash)).
Proof.
  unfold Query.updateItemData, Query.updateItemData_within.
  destruct (Tree.getitem t (Some tHandle)) as [tItem|] eqn:G;
    [|discriminate].
  destruct (Query.findRootItem MAX_DEPTH t tItem) as [r|e] eqn:F;
    [|discriminate].
  destruct (chain_of_findRootItem _ _ _ _ F) as (above & C & L).
  rewrite (findRootItem_of_chain _ _ _ _ C L) in F. injection F as <-.
  cbn [bind].
  destruct (itemParent (Path.top t tItem above)) eqn:P; [discriminate|].
  intros E. injection E as <-.
  exists tItem, above. split; [reflexivity|]. split; [exact C|].
  split; [exact L|]. split; [exact P|].
  fold (Chain.cached (Path.top t tItem above) tItem).
  now apply isTrash_cached.
Qed.

Lemma isTrash_after_update_witness :
  Query.isTrash Scenario.bin Sample.h4 = false
  /\ exists tItem above,
       Tree.getitem Scenario.bin (Some Sample.h4) = Some tItem
       /\ Path.chain Scenario.bin tItem above
       /\ List.length above < MAX_DEPTH
       /\ itemParent (Path.top Scenario.bin tItem above) = None
       /\ (Query.isTrash Scenario.binVerified Sample.h4 = true <->
           itemClass (Path.top Scenario.bin tItem above) = TRASH
           \/ exists trash,
                _trash Scenario.bin = Some trash
                /\ (Sample.h4 = trash
                    \/ itemParent tItem = Some trash
                    \/ itemHandle (Path.top Scenario.bin tItem above)
                       = trash)).
Proof.
  split; [vm_compute; reflexivity|].
  apply (isTrash_after_update Scenario.bin Sample.h4 Scenario.binVerified).
  vm_compute. reflexivity.
Defined.
